(** * GDrive Audio Browser: a shallow embedding of [app.py]

    The development follows the script top to bottom: Python values
    (strings, dicts, slices), the [re] pattern [AUDIO_EXT_RE], the three
    cached Drive helpers, and the page script itself.

    Modelling conventions.
    - A Python [str] is a [string] whose characters are the code points
      0..255; on that range [str.lower], [str.strip] and the
      case-insensitive comparison of [re] are the functions below.
    - A Drive resource (a JSON object) is a [gmap string string].
    - Python [int] is [Z]; [//] is [Z.div] (both round towards minus
      infinity). *)

From Stdlib Require Import ZArith QArith Qround Ascii String List Bool Lia Init.Byte.
From stdpp Require Import base option list gmap strings pretty.

Local Open Scope string_scope.
Local Open Scope list_scope.
Local Open Scope Z_scope.

(** ** Python strings *)

(** The strings of the page are modelled with code points below 256, on
    which [str.lower] and [str.isspace] are the functions below. The
    search filter, whose test depends on [str.lower], is also given on
    texts of any characters ([UStr], [apply_query_str]). *)
Module PyStr.

Definition code (c : ascii) : nat := nat_of_ascii c.

(** [str.lower] on one code point below 256: A-Z, and the Latin-1
    capitals 192..222 except the multiplication sign 215. *)
Definition lower_char (c : ascii) : ascii :=
  let n := code c in
  if ((65 <=? n) && (n <=? 90)
      || (192 <=? n) && (n <=? 222) && negb (n =? 215))%nat
  then ascii_of_nat (n + 32) else c.

Fixpoint lower (s : string) : string :=
  match s with
  | EmptyString => EmptyString
  | String c t => String (lower_char c) (lower t)
  end.

(** [str.isspace] on one code point below 256. *)
Definition is_space (c : ascii) : bool :=
  let n := code c in
  ((9 <=? n) && (n <=? 13) || (28 <=? n) && (n <=? 32)
   || (n =? 133) || (n =? 160))%nat.

Fixpoint lstrip (s : string) : string :=
  match s with
  | EmptyString => EmptyString
  | String c t => if is_space c then lstrip t else s
  end.

Fixpoint rstrip (s : string) : string :=
  match s with
  | EmptyString => EmptyString
  | String c t =>
      match rstrip t with
      | EmptyString => if is_space c then EmptyString else String c EmptyString
      | t' => String c t'
      end
  end.

Definition strip (s : string) : string := rstrip (lstrip s).

(** Truth value of a [str]: non-empty. *)
Definition truthy (s : string) : bool :=
  match s with EmptyString => false | String _ _ => true end.

(** [s.startswith(p)] *)
Fixpoint startswith (p s : string) : bool :=
  match p with
  | EmptyString => true
  | String a p' =>
      match s with
      | EmptyString => false
      | String b s' => Ascii.eqb a b && startswith p' s'
      end
  end.

(** [sub in s]: [sub] starts at some position of [s]. *)
Fixpoint contains (sub s : string) : bool :=
  startswith sub s
  || match s with
     | EmptyString => false
     | String _ t => contains sub t
     end.

Definition newline : ascii := ascii_of_nat 10.

End PyStr.

(** ** The fragment of [re] used by the script *)

Module Re.

Inductive regex : Type :=
| Lit (c : ascii)
| Seq (r1 r2 : regex)
| Alt (r1 r2 : regex)
| Dollar.

(** Comparison of a pattern literal with a subject character, with or
    without [re.IGNORECASE]. *)
Definition char_matches (ignorecase : bool) (p x : ascii) : bool :=
  if ignorecase
  then Ascii.eqb (PyStr.lower_char p) (PyStr.lower_char x)
  else Ascii.eqb p x.

(** [$] without [re.MULTILINE]: the end of the string, or just before
    a newline that is the last character of the string. *)
Definition at_dollar (s : string) : bool :=
  match s with
  | EmptyString => true
  | String c EmptyString => Ascii.eqb c PyStr.newline
  | _ => false
  end.

(** All the ways [r] can match a prefix of [s]: the list of what is
    left of [s] after each, in the order a backtracking matcher tries
    them. *)
Fixpoint match_at (ignorecase : bool) (r : regex) (s : string) : list string :=
  match r with
  | Lit p =>
      match s with
      | String x t => if char_matches ignorecase p x then [t] else []
      | EmptyString => []
      end
  | Seq r1 r2 =>
      flat_map (match_at ignorecase r2) (match_at ignorecase r1 s)
  | Alt r1 r2 => match_at ignorecase r1 s ++ match_at ignorecase r2 s
  | Dollar => if at_dollar s then [s] else []
  end.

Definition matches_at (ignorecase : bool) (r : regex) (s : string) : bool :=
  match match_at ignorecase r s with [] => false | _ :: _ => true end.

(** [pattern.search(s)] as a truth value: a match at some position,
    scanning from the left (the position after the last character
    included). *)
Fixpoint search (ignorecase : bool) (r : regex) (s : string) : bool :=
  matches_at ignorecase r s
  || match s with
     | EmptyString => false
     | String _ t => search ignorecase r t
     end.

End Re.

(** [AUDIO_EXT_RE = re.compile(r"\.(wav|wave)$", re.IGNORECASE)] *)
Definition AUDIO_EXT_RE : Re.regex :=
  Re.Seq (Re.Lit ".")
    (Re.Seq (Re.Alt (Re.Seq (Re.Lit "w") (Re.Seq (Re.Lit "a") (Re.Lit "v")))
                    (Re.Seq (Re.Lit "w") (Re.Seq (Re.Lit "a")
                       (Re.Seq (Re.Lit "v") (Re.Lit "e")))))
            Re.Dollar).

Definition AUDIO_EXT_RE_search (name : string) : bool :=
  Re.search true AUDIO_EXT_RE name.

(** ** Drive resources *)

(** One entry of a [files.list] answer: a dict with string values. *)
Abbreviation resource := (gmap string string).

(** [f.get("name") and AUDIO_EXT_RE.search(f["name"])] as a truth value. *)
Definition is_wav (f : resource) : bool :=
  match f !! "name" with
  | Some n => PyStr.truthy n && AUDIO_EXT_RE_search n
  | None => false
  end.

(** [wavs = [f for f in files if f.get("name") and AUDIO_EXT_RE.search(f["name"])]] *)
Definition wavs_of (files : list resource) : list resource :=
  List.filter is_wav files.


(** ** Outcomes of running Python code *)

Inductive exn : Type :=
| KeyError (key : string)
| ValueError
| HttpError
| StopIteration
| StopException    (* raised by [st.stop()] *)
| RerunException   (* raised by [st.rerun()] *)
| SecretNotFoundError. (* raised by [st.secrets] when there is no secrets file *)

(** A call returns, raises, or is still looping when the fuel of the
    model runs out. *)
Inductive result (A : Type) : Type :=
| Ok (a : A)
| Raise (e : exn)
| OutOfFuel.
Arguments Ok {A} a.
Arguments Raise {A} e.
Arguments OutOfFuel {A}.

(** ** The Drive service, seen from the script *)

(** Keyword arguments of [service.files().list(...)]. *)
Record list_request : Type := ListRequest {
  q : string;
  fields : string;
  pageSize : Z;
  orderBy : string;
}.

(** One round trip to Drive. *)
Inductive drive_call : Type :=
| FilesList (req : list_request)
| NextChunk (fileId : string).

(** What the libraries outside the script do. The answers of Drive may
    depend on every request made before ([list drive_call], oldest
    first).
    - [credentials_ok]: whether [from_service_account_info] accepts the
      table;
    - [files_list_execute]: [.execute()] of a list request, the value
      under ["files"] of the answer when the key is there;
    - [next_chunk]: the bytes a [MediaIoBaseDownload.next_chunk()]
      writes to its file handle, and its [done] flag. *)
Record backend : Type := Backend {
  credentials_ok : gmap string string -> bool;
  files_list_execute :
    list drive_call -> list_request -> exn + option (list resource);
  next_chunk : list drive_call -> string -> exn + (list byte * bool);
}.

(** ** What the page shows *)

Inductive ui_event : Type :=
| SetPageConfig
| Title
| Error (msg : string)
| Warning (msg : string)
| SidebarHeader
| Button
| Selectbox (options : list string)
| Subheader (folder_name : string)
| TextInput
| NumberInput (min_value max_value : Z)
| Caption (total : Z)
| Divider
| Expander (idx : Z) (name : string)
| Audio (audio_bytes : list byte) (mime : string).

(** ** The state a script run works on *)

(** An entry of an [st.cache_data] table: the value and when it was
    stored, in seconds. *)
Record cache_entry (T : Type) : Type := CacheEntry {
  value : T;
  fetched_at : Z;
}.
Arguments CacheEntry {T} value fetched_at.
Arguments value {T} c.
Arguments fetched_at {T} c.

(** The secrets file: its top-level keys that hold a string, and its
    tables. (Keys that hold numbers, booleans or arrays are not
    modelled; the root folder id is read among the strings.) *)
Record secrets_toml : Type := Secrets {
  toml_strings : gmap string string;
  toml_tables : gmap string (gmap string string);
}.

Record world : Type := World {
  secrets : option secrets_toml;   (* [None]: there is no secrets file *)
  drive : backend;
  now : Z;
  subfolders_cache : gmap string (cache_entry (list resource));
  wav_files_cache : gmap string (cache_entry (list resource));
  bytes_cache : gmap string (cache_entry (list byte));
  drive_log : list drive_call;
  shown : list ui_event;
}.

(** What [st.secrets] holds; nothing without a secrets file. *)
Definition secret_strings (w : world) : gmap string string :=
  match secrets w with
  | Some s => toml_strings s
  | None => ∅
  end.

Definition secret_tables (w : world) : gmap string (gmap string string) :=
  match secrets w with
  | Some s => toml_tables s
  | None => ∅
  end.

Arguments secret_strings w : simpl never.
Arguments secret_tables w : simpl never.

Definition set_subfolders_cache (c : gmap string (cache_entry (list resource)))
    (w : world) : world :=
  World (secrets w) (drive w) (now w)
        c (wav_files_cache w) (bytes_cache w) (drive_log w) (shown w).

Definition set_wav_files_cache (c : gmap string (cache_entry (list resource)))
    (w : world) : world :=
  World (secrets w) (drive w) (now w)
        (subfolders_cache w) c (bytes_cache w) (drive_log w) (shown w).

Definition set_bytes_cache (c : gmap string (cache_entry (list byte)))
    (w : world) : world :=
  World (secrets w) (drive w) (now w)
        (subfolders_cache w) (wav_files_cache w) c (drive_log w) (shown w).

Definition log_call (c : drive_call) (w : world) : world :=
  World (secrets w) (drive w) (now w)
        (subfolders_cache w) (wav_files_cache w) (bytes_cache w)
        (drive_log w ++ [c]) (shown w).

Definition show (e : ui_event) (w : world) : world :=
  World (secrets w) (drive w) (now w)
        (subfolders_cache w) (wav_files_cache w) (bytes_cache w)
        (drive_log w) (shown w ++ [e]).

(** Time passing between two calls. *)
Definition elapse (dt : Z) (w : world) : world :=
  World (secrets w) (drive w) (now w + dt)
        (subfolders_cache w) (wav_files_cache w) (bytes_cache w)
        (drive_log w) (shown w).

(** ** The monad of script code: state and exceptions *)

Definition M (A : Type) : Type := world -> result A * world.

#[global] Instance M_ret : MRet M := fun A a w => (Ok a, w).

#[global] Instance M_bind : MBind M := fun A B k m w =>
  match m w with
  | (Ok a, w') => k a w'
  | (Raise e, w') => (Raise e, w')
  | (OutOfFuel, w') => (OutOfFuel, w')
  end.

Definition raise {A : Type} (e : exn) : M A := fun w => (Raise e, w).
Definition out_of_fuel {A : Type} : M A := fun w => (OutOfFuel, w).
Definition get_world : M world := fun w => (Ok w, w).
Definition modify (f : world -> world) : M unit := fun w => (Ok tt, f w).

(** [d[key]] on a dict. *)
Definition getitem (d : resource) (key : string) : M string :=
  match d !! key with
  | Some v => mret v
  | None => raise (KeyError key)
  end.

(** A Drive round trip: logged, then answered by the backend from the
    requests made before it. *)
Definition files_list (req : list_request) : M (option (list resource)) :=
  fun w =>
    match files_list_execute (drive w) (drive_log w) req with
    | inl e => (Raise e, log_call (FilesList req) w)
    | inr res => (Ok res, log_call (FilesList req) w)
    end.

Definition downloader_next_chunk (file_id : string) : M (list byte * bool) :=
  fun w =>
    match next_chunk (drive w) (drive_log w) file_id with
    | inl e => (Raise e, log_call (NextChunk file_id) w)
    | inr r => (Ok r, log_call (NextChunk file_id) w)
    end.

Definition lift {A : Type} (r : result A) : M A := fun w => (r, w).

(** ** [st.cache_data] *)

(** One cache table of the world, as a getter and a setter. *)
Record table (T : Type) : Type := Table {
  tbl_get : world -> gmap string (cache_entry T);
  tbl_set : gmap string (cache_entry T) -> world -> world;
}.
Arguments Table {T} tbl_get tbl_set.
Arguments tbl_get {T} t w.
Arguments tbl_set {T} t c w.

Definition subfolders_table : table (list resource) :=
  Table subfolders_cache set_subfolders_cache.
Definition wav_files_table : table (list resource) :=
  Table wav_files_cache set_wav_files_cache.
Definition bytes_table : table (list byte) :=
  Table bytes_cache set_bytes_cache.

(** An entry is served while it is younger than [ttl] seconds. *)
Definition fresh_value {T : Type} (ttl t : Z) (e : option (cache_entry T)) : option T :=
  match e with
  | Some c => if t - fetched_at c <? ttl then Some (value c) else None
  | None => None
  end.

(** The decorator [@st.cache_data(ttl=...)] on a function of one string
    argument: a fresh entry is returned without running the function;
    otherwise the function runs and, if it returns, its value is stored
    under the argument with the current time. *)
Definition cache_data {T : Type} (ttl : Z) (tbl : table T)
    (func : string -> M T) (arg : string) : M T :=
  fun w =>
    match fresh_value ttl (now w) (tbl_get tbl w !! arg) with
    | Some v => (Ok v, w)
    | None =>
        match func arg w with
        | (Ok v, w') =>
            (Ok v, tbl_set tbl (<[arg := CacheEntry v (now w')]> (tbl_get tbl w')) w')
        | failed => failed
        end
    end.

(** [func.clear()] *)
Definition clear_table {T : Type} (tbl : table T) : M unit :=
  modify (tbl_set tbl ∅).

(** [st.cache_data.clear()]: every table of every cached function. *)
Definition cache_data_clear : M unit :=
  clear_table subfolders_table ;;
  clear_table wav_files_table ;;
  clear_table bytes_table.

(** ** Helpers *)

(** [st.secrets[key]] followed by [dict(...)]: without a secrets file
    the lookup raises, as it does for a key that is not there; a table
    becomes a dict; a string is no sequence of pairs, so [dict] raises
    [ValueError] on it, except on the empty string, which gives the
    empty dict. *)
Definition secrets_dict (key : string) : M (gmap string string) :=
  w ← get_world;
  match secret_tables w !! key with
  | Some table => mret table
  | None =>
      match secrets w with
      | None => raise SecretNotFoundError
      | Some _ =>
          match secret_strings w !! key with
          | Some s => if PyStr.truthy s then raise ValueError else mret ∅
          | None => raise (KeyError key)
          end
      end
  end.

(** [get_drive_service]: the credentials are looked up in the secrets
    and handed to [from_service_account_info]; building the service
    object contacts nobody. *)
Definition get_drive_service : M unit :=
  creds_dict ← secrets_dict "gcp_service_account";
  w ← get_world;
  if credentials_ok (drive w) creds_dict then mret tt else raise ValueError.

Definition folder_mime : string := "application/vnd.google-apps.folder".

Definition subfolders_q (root_folder_id : string) : string :=
  "'" +:+ root_folder_id +:+ "' in parents "
  +:+ "and mimeType = '" +:+ folder_mime +:+ "' "
  +:+ "and trashed = false".

Definition subfolders_request (root_folder_id : string) : list_request :=
  ListRequest (subfolders_q root_folder_id) "files(id,name)" 1000 "name".

(** Body of [list_subfolders]. *)
Definition list_subfolders_body (root_folder_id : string) : M (list resource) :=
  get_drive_service ;;
  res ← files_list (subfolders_request root_folder_id);
  mret (default [] res).

Definition list_subfolders : string -> M (list resource) :=
  cache_data 60 subfolders_table list_subfolders_body.

Definition wav_files_q (folder_id : string) : string :=
  "'" +:+ folder_id +:+ "' in parents " +:+ "and trashed = false".

Definition wav_files_request (folder_id : string) : list_request :=
  ListRequest (wav_files_q folder_id) "files(id,name,mimeType,size)" 1000 "name".

(** Body of [list_wav_files]. *)
Definition list_wav_files_body (folder_id : string) : M (list resource) :=
  get_drive_service ;;
  res ← files_list (wav_files_request folder_id);
  let files := default [] res in
  mret (wavs_of files).

Definition list_wav_files : string -> M (list resource) :=
  cache_data 60 wav_files_table list_wav_files_body.

(** [while not done: _, done = downloader.next_chunk()], with [fh] the
    bytes written so far; [done] is [False] on entry, so the first
    request is always made. *)
Fixpoint download_loop (fuel : nat) (file_id : string) (fh : list byte)
    : M (list byte) :=
  match fuel with
  | O => out_of_fuel
  | S fuel' =>
      '(chunk, done) ← downloader_next_chunk file_id;
      let fh := fh ++ chunk in
      if done : bool then mret fh else download_loop fuel' file_id fh
  end.

(** Body of [download_file_bytes]. *)
Definition download_file_bytes_body (fuel : nat) (file_id : string)
    : M (list byte) :=
  get_drive_service ;;
  download_loop fuel file_id [].

Definition download_file_bytes (fuel : nat) : string -> M (list byte) :=
  cache_data 3600 bytes_table (download_file_bytes_body fuel).

(** [audio_player_nodownload]: one HTML component carrying the bytes
    (base64 in a data URL, not spelled out here). *)
Definition audio_player_nodownload (audio_bytes : list byte) (mime : string)
    : M unit :=
  modify (show (Audio audio_bytes mime)).

(** ** Python lists *)

(** A slice bound as [list.__getitem__] normalises it: a negative bound
    counts from the end, and both are brought into [0, len]. *)
Definition slice_bound (len i : Z) : Z :=
  if i <? 0 then Z.max 0 (i + len) else Z.min i len.

(** [l[start:stop]] *)
Definition py_slice {A : Type} (l : list A) (start stop : Z) : list A :=
  let len := Z.of_nat (length l) in
  let lo := slice_bound len start in
  let hi := slice_bound len stop in
  take (Z.to_nat (hi - lo)) (drop (Z.to_nat lo) l).

(** ** Widgets

    What the user did on the page before this run of the script. *)
Record interaction : Type := Interaction {
  refresh_clicked : bool;
  chosen_folder : nat;     (* position picked in the select box *)
  typed_query : string;
  typed_page_size : Z;
  typed_page : Z;
}.

Definition st_button (clicked : bool) : M bool :=
  modify (show Button) ;; mret clicked.

(** The option picked, the first one when nothing valid is picked, [None]
    without options. *)
Definition st_selectbox (options : list string) (choice : nat) : M (option string) :=
  modify (show (Selectbox options)) ;;
  mret (match options !! choice with
        | Some o => Some o
        | None => head options
        end).

Definition st_text_input (typed : string) : M string :=
  modify (show TextInput) ;; mret typed.

(** The widget hands out what was typed when that lies in
    [min_value..max_value]; a value outside is not taken, and the
    default [value] is handed out. *)
Definition st_number_input (min_value max_value value typed : Z) : M Z :=
  modify (show (NumberInput min_value max_value)) ;;
  mret (if (min_value <=? typed) && (typed <=? max_value) then typed else value).

(** ** The page *)

(** [[f for f in files if query.lower() in f["name"].lower()]] *)
Fixpoint filter_by_query (query : string) (files : list resource)
    : result (list resource) :=
  match files with
  | [] => Ok []
  | f :: rest =>
      match f !! "name" with
      | None => Raise (KeyError "name")
      | Some n =>
          match filter_by_query query rest with
          | Ok kept =>
              Ok (if PyStr.contains (PyStr.lower query) (PyStr.lower n)
                  then f :: kept else kept)
          | failed => failed
          end
      end
  end.

(** [if query.strip(): files = [...]] *)
Definition apply_query (query : string) (files : list resource)
    : result (list resource) :=
  if PyStr.truthy (PyStr.strip query) then filter_by_query query files
  else Ok files.

(** ** The search filter on any text *)

(** The strings above have code points below 256. The two lines of the
    search filter are also given for a [str] of any code points: a list
    over some type [char], with [str.lower] and [str.isspace] left
    open, so that what is proved of them holds for the functions Python
    has, whatever they do to a character. *)
Module UStr.
Section unicode.
Context {char : Type} `{EqDecision char}.
Variable is_space : char → bool.

Fixpoint lstrip (s : list char) : list char :=
  match s with
  | [] => []
  | c :: t => if is_space c then lstrip t else s
  end.

Fixpoint rstrip (s : list char) : list char :=
  match s with
  | [] => []
  | c :: t =>
      match rstrip t with
      | [] => if is_space c then [] else [c]
      | t' => c :: t'
      end
  end.

Definition strip (s : list char) : list char := rstrip (lstrip s).

Definition truthy (s : list char) : bool :=
  match s with [] => false | _ :: _ => true end.

Fixpoint startswith (p s : list char) : bool :=
  match p with
  | [] => true
  | a :: p' =>
      match s with
      | [] => false
      | b :: s' => bool_decide (a = b) && startswith p' s'
      end
  end.

Fixpoint contains (sub s : list char) : bool :=
  startswith sub s
  || match s with
     | [] => false
     | _ :: t => contains sub t
     end.

End unicode.
End UStr.

Section any_text.
Context {char : Type} `{EqDecision char}.
Variable lower : list char → list char.
Variable is_space : char → bool.



End any_text.

Definition page_count (total page_size : Z) : Z :=
  Z.max 1 ((total + page_size - 1) / page_size).

Definition page_start (page page_size : Z) : Z := (page - 1) * page_size.

Definition page_end (start page_size total : Z) : Z :=
  Z.min (start + page_size) total.

(** [files_page = files[start:end]] *)
Definition files_page (files : list resource) (page page_size : Z)
    : list resource :=
  let total := Z.of_nat (length files) in
  let start := page_start page page_size in
  py_slice files start (page_end start page_size total).

(** [[f["name"] for f in folders]] *)
Fixpoint names_of (folders : list resource) : M (list string) :=
  match folders with
  | [] => mret []
  | f :: rest =>
      n ← getitem f "name";
      ns ← names_of rest;
      mret (n :: ns)
  end.

(** [next(f for f in folders if f["name"] == selected_name)] *)
Fixpoint next_named (folders : list resource) (selected_name : option string)
    : M resource :=
  match folders with
  | [] => raise StopIteration
  | f :: rest =>
      n ← getitem f "name";
      if bool_decide (Some n = selected_name) then mret f
      else next_named rest selected_name
  end.

(** The [for idx, f in enumerate(files_page, start=start + 1)] loop. *)
Fixpoint render_files (fuel : nat) (idx : Z) (files : list resource) : M unit :=
  match files with
  | [] => mret tt
  | f :: rest =>
      name ← getitem f "name";
      modify (show (Expander idx name)) ;;
      id ← getitem f "id";
      audio_bytes ← download_file_bytes fuel id;
      audio_player_nodownload audio_bytes "audio/wav" ;;
      id ← getitem f "id";
      audio_bytes ← download_file_bytes fuel id;
      audio_player_nodownload audio_bytes "audio/wav" ;;
      render_files fuel (idx + 1) rest
  end.

(** The [if refresh:] block. *)
Definition refresh_handler : M unit :=
  clear_table subfolders_table ;;
  clear_table wav_files_table ;;
  cache_data_clear ;;
  raise RerunException.

Definition missing_root_msg : string :=
  "Missing GDRIVE_ROOT_FOLDER_ID in Streamlit secrets.".

Definition no_subfolders_msg : string :=
  "No subfolders found under the root folder (or not shared with the service account).".

(** [st.secrets.get(key, None)]: [get] turns a missing key into the
    default, not a missing secrets file. *)
Definition st_secrets_get (key : string) : M (option string) :=
  w ← get_world;
  match secrets w with
  | None => raise SecretNotFoundError
  | Some _ => mret (secret_strings w !! key)
  end.

(** One run of the script, from the top. *)
Definition script (fuel : nat) (ui : interaction) : M unit :=
  modify (show SetPageConfig) ;;
  modify (show Title) ;;
  root ← st_secrets_get "GDRIVE_ROOT_FOLDER_ID";
  let root_id := default "" root in
  (if PyStr.truthy root_id then mret tt
   else modify (show (Error missing_root_msg)) ;; raise StopException) ;;
  modify (show SidebarHeader) ;;
  refresh ← st_button (refresh_clicked ui);
  (if refresh : bool then refresh_handler else mret tt) ;;
  folders ← list_subfolders root_id;
  match folders with
  | [] => modify (show (Warning no_subfolders_msg)) ;; raise StopException
  | _ :: _ => mret tt
  end ;;
  folder_names ← names_of folders;
  selected_name ← st_selectbox folder_names (chosen_folder ui);
  selected_folder ← next_named folders selected_name;
  shown_name ← getitem selected_folder "name";
  modify (show (Subheader shown_name)) ;;
  query ← st_text_input (typed_query ui);
  page_size ← st_number_input 10 200 50 (typed_page_size ui);
  folder_id ← getitem selected_folder "id";
  files ← list_wav_files folder_id;
  files ← lift (apply_query query files);
  let total := Z.of_nat (length files) in
  modify (show (Caption total)) ;;
  page ← st_number_input 1 (page_count total page_size) 1 (typed_page ui);
  modify (show Divider) ;;
  render_files fuel (page_start page page_size + 1) (files_page files page page_size).

(** ** Vocabulary of the statements *)

(** [get_drive_service] will return: the credentials table is in the
    secrets and is accepted. *)
Definition service_ready (w : world) : bool :=
  match secret_tables w !! "gcp_service_account" with
  | Some creds_dict => credentials_ok (drive w) creds_dict
  | None => false
  end.

(** The name ends, up to case, in [.wav] or [.wave]. *)
Definition has_audio_suffix (name : string) : Prop :=
  ∃ stem ext, name = stem +:+ ext
    ∧ (PyStr.lower ext = ".wav" ∨ PyStr.lower ext = ".wave").

(** The entry has a name, and it is not the empty string. *)
Definition has_name (f : resource) : Prop :=
  ∃ n, f !! "name" = Some n ∧ n ≠ "".



(** [s.endswith(suf)], for stating what a suffix is in a way that
    computes. *)
Fixpoint endswith (suf s : string) : bool :=
  String.eqb s suf
  || match s with
     | EmptyString => false
     | String _ t => endswith suf t
     end.

Definition audio_suffixb (name : string) : bool :=
  endswith ".wav" (PyStr.lower name) || endswith ".wave" (PyStr.lower name).

(** A file name that ends in a newline, and a listing that has it. *)
Definition newline_name : string := "a.wav" +:+ String PyStr.newline "".

Definition newline_entry : resource :=
  {[ "id" := "f1"; "name" := newline_name ]}.


(** A reader that hands out [chunks], flagged not done, and then [last],
    flagged done: what [next_chunk] answers for [file_id] from the state
    [w] on, request after request. *)
Definition reader_yields (w : world) (file_id : string)
    (chunks : list (list byte)) (last : list byte) : Prop :=
  ∀ i, (i ≤ length chunks)%nat →
    next_chunk (drive w) (drive_log w ++ replicate i (NextChunk file_id)) file_id
    = inr (nth i (chunks ++ [last]) [], bool_decide (i = length chunks)).

(** A Drive that always answers a list request with [listing] and
    yields the chunks of [answers] one request after the other. *)
Definition scripted_drive (listing : list resource)
    (answers : list (list byte * bool)) : backend :=
  Backend (fun _ => true)
          (fun _ _ => inr (Some listing))
          (fun log _ => inr (nth (length log) answers ([], true))).

(** A process that just started: secrets loaded, nothing cached, nothing
    requested, nothing shown. *)
Definition fresh_world (strings : gmap string string)
    (tables : gmap string (gmap string string)) (d : backend) : world :=
  World (Some (Secrets strings tables)) d 0 ∅ ∅ ∅ [] [].

(** A listing with an entry without a name, one with an empty name, a
    text file and two audio files; and a process that has just started
    against a Drive answering with it. *)
Definition demo_listing : list resource :=
  [ {[ "id" := "f0" ]};
    {[ "id" := "f1"; "name" := "" ]};
    {[ "id" := "f2"; "name" := "notes.txt" ]};
    {[ "id" := "f3"; "name" := "Vocal_Take1.wav" ]};
    {[ "id" := "f4"; "name" := "noise.WAVE" ]} ].

Definition demo_world : world :=
  fresh_world {[ "GDRIVE_ROOT_FOLDER_ID" := "root" ]}
              {[ "gcp_service_account" := ∅ ]}
              (scripted_drive demo_listing []).

(** [n] audio files, named [0.wav], [1.wav], ... *)
Definition numbered_files (n : nat) : list resource :=
  List.map (fun i : nat => {[ "id" := pretty i; "name" := pretty i +:+ ".wav" ]})
           (seq 0 n).





(** The strings of the page as lists of characters, and [str.lower] of
    the page on them. *)
Definition chars (s : string) : list ascii := list_ascii_of_string s.







(** Widgets: the events through which the page takes input. *)
Definition is_widget (e : ui_event) : bool :=
  match e with
  | Button | Selectbox _ | TextInput | NumberInput _ _ => true
  | _ => false
  end.

(** The start-up check as the specification words it: the run was
    stopped, it put an error message on the page and no widget, and
    Drive was not asked anything. *)
Definition put_on_page (w : world) (out : result unit * world) : list ui_event :=
  drop (length (shown w)) (shown out.2).

Definition halted_on_configuration (w : world) (out : result unit * world) : Prop :=
  out.1 = Raise StopException
  ∧ (∃ msg, In (Error msg) (put_on_page w out))
  ∧ forallb (fun e => negb (is_widget e)) (put_on_page w out) = true
  ∧ drive_log out.2 = drive_log w.

(** A process that has just started with the root folder id set and no
    credentials table, and two pages: untouched, and with the refresh
    button clicked. *)
Definition no_credentials_world : world :=
  fresh_world {[ "GDRIVE_ROOT_FOLDER_ID" := "root" ]} ∅
              (scripted_drive demo_listing []).

(** The same with the credentials key holding a string. *)
Definition string_credentials_world : world :=
  fresh_world {[ "GDRIVE_ROOT_FOLDER_ID" := "root"; "gcp_service_account" := "abc" ]} ∅
              (scripted_drive demo_listing []).

Definition untouched : interaction := Interaction false 0 "" 50 1.
Definition refresh_click : interaction := Interaction true 0 "" 50 1.

(** [m] leaves the secrets and Drive as they are, and does not talk to
    Drive when started where [get_drive_service] does not return. *)
Definition keeps {A : Type} (m : M A) : Prop :=
  ∀ w, (get_drive_service w).1 ≠ Ok tt →
    secrets (m w).2 = secrets w
    ∧ drive (m w).2 = drive w
    ∧ drive_log (m w).2 = drive_log w.

(** A process that has just started without a secrets file. *)
Definition no_secrets_world (d : backend) : world :=
  World None d 0 ∅ ∅ ∅ [] [].

(** The state after a first listing of ["folder"], and the state one
    second after a refresh made from there. *)
Definition warm_world : world := (list_wav_files "folder" demo_world).2.

Definition refreshed_world : world := elapse 1 (refresh_handler warm_world).2.

(** The reader of the byte-fetch example: [b"AB"], [b"CD"], then
    [b"EF"] with the done flag. *)
Definition AB : list byte := [x41; x42]%byte.
Definition CD : list byte := [x43; x44]%byte.
Definition EF : list byte := [x45; x46]%byte.

Definition chunked_world : world :=
  fresh_world {[ "GDRIVE_ROOT_FOLDER_ID" := "root" ]}
              {[ "gcp_service_account" := ∅ ]}
              (scripted_drive [] [(AB, false); (CD, false); (EF, true)]).

(** A process that has just started against a Drive whose listing has a
    file name ending in a newline. *)
Definition newline_world : world :=
  fresh_world {[ "GDRIVE_ROOT_FOLDER_ID" := "root" ]}
              {[ "gcp_service_account" := ∅ ]}
              (scripted_drive [newline_entry] []).

(** ** Vocabulary of the further properties *)

(** A table whose getter reads what its setter wrote, and whose setter
    leaves the clock alone. *)
Definition table_ok {T : Type} (tbl : table T) : Prop :=
  (∀ c w, tbl_get tbl (tbl_set tbl c w) = c)
  ∧ (∀ c w, now (tbl_set tbl c w) = now w).

(** A Drive that fails on every request, and a process that has just
    started against it. *)
Definition failing_drive : backend :=
  Backend (fun _ => true) (fun _ _ => inl HttpError) (fun _ _ => inl HttpError).

Definition failing_world : world :=
  fresh_world {[ "GDRIVE_ROOT_FOLDER_ID" := "root" ]}
              {[ "gcp_service_account" := ∅ ]}
              failing_drive.

(** A reader that hands out [chunks], none flagged done, and then fails
    with [e]. *)
Definition reader_fails (w : world) (file_id : string)
    (chunks : list (list byte)) (e : exn) : Prop :=
  (∀ i, (i < length chunks)%nat →
     next_chunk (drive w) (drive_log w ++ replicate i (NextChunk file_id)) file_id
     = inr (nth i chunks [], false))
  ∧ next_chunk (drive w)
      (drive_log w ++ replicate (length chunks) (NextChunk file_id)) file_id
    = inl e.

(** A reader that never flags a chunk done. *)
Definition reader_never_done (w : world) (file_id : string) : Prop :=
  ∀ i, ∃ chunk,
    next_chunk (drive w) (drive_log w ++ replicate i (NextChunk file_id)) file_id
    = inr (chunk, false).

(** A Drive whose reader fails on the third chunk, one whose reader
    never finishes, and processes that have just started against them. *)
Definition broken_reader_drive : backend :=
  Backend (fun _ => true) (fun _ _ => inr None)
          (fun log _ => match log with
                        | [] => inr (AB, false)
                        | [_] => inr (CD, false)
                        | _ => inl HttpError
                        end).

Definition endless_reader_drive : backend :=
  Backend (fun _ => true) (fun _ _ => inr None) (fun _ _ => inr (AB, false)).

Definition broken_reader_world : world :=
  fresh_world {[ "GDRIVE_ROOT_FOLDER_ID" := "root" ]}
              {[ "gcp_service_account" := ∅ ]} broken_reader_drive.

Definition endless_reader_world : world :=
  fresh_world {[ "GDRIVE_ROOT_FOLDER_ID" := "root" ]}
              {[ "gcp_service_account" := ∅ ]} endless_reader_drive.

(** Three folders, two of them with the same name. *)
Definition twin_folders : list resource :=
  [ {[ "id" := "d1"; "name" := "drums" ]};
    {[ "id" := "d2"; "name" := "takes" ]};
    {[ "id" := "d3"; "name" := "takes" ]} ].

(** Every list stored in the table of [list_wav_files] is made of
    entries the filter keeps. *)
Definition wav_cache_sound (w : world) : Prop :=
  ∀ k e, wav_files_cache w !! k = Some e →
    Forall (fun f => is_wav f = true) (value e).

(** An expander on the page is titled with a name the pattern matches. *)
Definition expander_ok (e : ui_event) : Prop :=
  match e with
  | Expander _ name => AUDIO_EXT_RE_search name = true
  | _ => True
  end.

(** Drive fails with exceptions of its own, not with [StopIteration]. *)
Definition drive_exn_ok (d : backend) : Prop :=
  (∀ log req, files_list_execute d log req ≠ inl StopIteration)
  ∧ (∀ log file_id, next_chunk d log file_id ≠ inl StopIteration).

(** What every run of the script keeps true, [D] being what is known
    of Drive. *)
Definition page_inv (D : backend → Prop) (w : world) : Prop :=
  wav_cache_sound w ∧ Forall expander_ok (shown w) ∧ D (drive w).

(** [m], started where [I] holds, ends where [I] holds; a value it
    returns satisfies [Q] and an exception it raises satisfies [X]. *)
Definition holds {A : Type} (I : world → Prop) (X : exn → Prop)
    (m : M A) (Q : A → Prop) : Prop :=
  ∀ w, I w →
    I (m w).2
    ∧ match (m w).1 with
      | Ok a => Q a
      | Raise e => X e
      | OutOfFuel => True
      end.

Definition not_stop_iteration (e : exn) : Prop := e ≠ StopIteration.

(** A Drive that answers the listing of the root with [twin_folders]
    and every other listing with [demo_listing], and whose reader hands
    out one empty chunk flagged done; a process that has just started
    against it. *)
Definition folders_drive : backend :=
  Backend (fun _ => true)
          (fun _ req => inr (Some (if String.eqb (fields req) "files(id,name)"
                                   then twin_folders else demo_listing)))
          (fun _ _ => inr ([], true)).

Definition folders_world : world :=
  fresh_world {[ "GDRIVE_ROOT_FOLDER_ID" := "root" ]}
              {[ "gcp_service_account" := ∅ ]} folders_drive.

(** A Drive without subfolders under the root, and a process that has
    just started against it. *)
Definition empty_world : world :=
  fresh_world {[ "GDRIVE_ROOT_FOLDER_ID" := "root" ]}
              {[ "gcp_service_account" := ∅ ]} (scripted_drive [] []).

(** What the loop of the page puts on it for one file, and for the
    files of a page numbered from [idx]: an expander titled with the
    number and the name, and the player, twice, with the same bytes. *)
Definition file_events (idx : Z) (name : string) (audio_bytes : list byte)
    : list ui_event :=
  [Expander idx name; Audio audio_bytes "audio/wav"; Audio audio_bytes "audio/wav"].

Fixpoint page_events (idx : Z) (entries : list (string * list byte))
    : list ui_event :=
  match entries with
  | [] => []
  | (name, audio_bytes) :: rest =>
      file_events idx name audio_bytes ++ page_events (idx + 1) rest
  end.

(** ** The audio component *)

(** [base64.b64encode]: the standard alphabet, [=] padding. *)
Definition b64_char (i : N) : ascii :=
  if (i <? 26)%N then ascii_of_N (65 + i)
  else if (i <? 52)%N then ascii_of_N (97 + (i - 26))
  else if (i <? 62)%N then ascii_of_N (48 + (i - 52))
  else if (i =? 62)%N then "+"%char
  else "/"%char.

Fixpoint b64encode (bs : list byte) : string :=
  match bs with
  | [] => EmptyString
  | [a] =>
      let n := Byte.to_N a in
      String (b64_char (n / 4))
        (String (b64_char (n mod 4 * 16)) "==")
  | [a; b] =>
      let n := (Byte.to_N a * 256 + Byte.to_N b)%N in
      String (b64_char (n / 1024))
        (String (b64_char (n / 16 mod 64))
           (String (b64_char (n mod 16 * 4)) "="))
  | a :: b :: c :: rest =>
      let n := (Byte.to_N a * 65536 + Byte.to_N b * 256 + Byte.to_N c)%N in
      String (b64_char (n / 262144))
        (String (b64_char (n / 4096 mod 64))
           (String (b64_char (n / 64 mod 64))
              (String (b64_char (n mod 64)) (b64encode rest))))
  end.

Definition dquote : string := String (ascii_of_nat 34) "".
Definition newline : string := String PyStr.newline "".

(** The value of [html] in [audio_player_nodownload], which the event
    [Audio] stands for: the f-string around [mime] and the base64 text
    of the bytes. *)
Definition audio_html (audio_bytes : list byte) (mime : string) : string :=
  let b64 := b64encode audio_bytes in
  newline +:+ "    <audio controls controlsList=" +:+ dquote
  +:+ "nodownload noplaybackrate" +:+ dquote
  +:+ " oncontextmenu=" +:+ dquote +:+ "return false" +:+ dquote
  +:+ " style=" +:+ dquote +:+ "width: 100%;" +:+ dquote +:+ ">" +:+ newline
  +:+ "      <source src=" +:+ dquote +:+ "data:"
  +:+ mime +:+ ";base64," +:+ b64 +:+ dquote +:+ " type=" +:+ dquote
  +:+ mime +:+ dquote +:+ ">" +:+ newline
  +:+ "      Your browser does not support the audio element." +:+ newline
  +:+ "    </audio>" +:+ newline +:+ "    ".

(** The characters of base64 text. *)
Definition is_b64_char (c : ascii) : bool :=
  let n := nat_of_ascii c in
  ((65 <=? n) && (n <=? 90) || (97 <=? n) && (n <=? 122)
   || (48 <=? n) && (n <=? 57) || (n =? 43) || (n =? 47) || (n =? 61))%nat.

Fixpoint all_chars (p : ascii → bool) (s : string) : bool :=
  match s with
  | EmptyString => true
  | String c t => p c && all_chars p t
  end.

(** The position of a character in the base64 alphabet. *)
Definition b64_index (c : ascii) : N :=
  let n := N_of_ascii c in
  if ((65 <=? n) && (n <=? 90))%N then (n - 65)%N
  else if ((97 <=? n) && (n <=? 122))%N then (n - 71)%N
  else if ((48 <=? n) && (n <=? 57))%N then (n + 4)%N
  else if (n =? 43)%N then 62%N
  else 63%N.

(** * Properties *)

(** ** Strings *)

Section strings.
Implicit Types s t sub : string.

Lemma append_nil_l s : "" +:+ s = s.
Proof. reflexivity. Qed.

Lemma append_cons c s t : String c s +:+ t = String c (s +:+ t).
Proof. reflexivity. Qed.

Lemma append_nil_r s : s +:+ "" = s.
Proof. induction s as [|c s IH]; [done|]. by rewrite append_cons, IH. Qed.

Lemma append_assoc s t u : (s +:+ t) +:+ u = s +:+ (t +:+ u).
Proof. induction s as [|c s IH]; [done|]. by rewrite !append_cons, IH. Qed.

Lemma lower_append s t :
  PyStr.lower (s +:+ t) = PyStr.lower s +:+ PyStr.lower t.
Proof.
  induction s as [|c s IH]; [done|].
  rewrite append_cons. simpl. by rewrite IH.
Qed.



Lemma truthy_spec s : PyStr.truthy s = true ↔ s ≠ "".
Proof. by destruct s. Qed.

End strings.

Section regex.

Lemma search_spec ic r s :
  Re.search ic r s = true ↔
  ∃ pre suf, s = pre +:+ suf ∧ Re.matches_at ic r suf = true.
Proof.
  induction s as [|c s IH]; simpl.
  - rewrite orb_false_r. split.
    + intros H. by exists "", "".
    + intros ([|] & suf & H & Hm); [by rewrite H | discriminate].
  - rewrite orb_true_iff, IH. split.
    + intros [H | (pre & suf & -> & H)].
      * by exists "", (String c s).
      * by exists (String c pre), suf.
    + intros ([|d pre] & suf & H & Hm).
      * left. by rewrite H.
      * right. rewrite append_cons in H. injection H as _ ->. by exists pre, suf.
Qed.

Lemma char_matches_ic p x :
  Re.char_matches true p x = true ↔ PyStr.lower_char x = PyStr.lower_char p.
Proof. unfold Re.char_matches. rewrite Ascii.eqb_eq. split; congruence. Qed.

Lemma in_match_lit ic p s rest :
  In rest (Re.match_at ic (Re.Lit p) s) ↔
  ∃ x, s = String x rest ∧ Re.char_matches ic p x = true.
Proof.
  simpl. destruct s as [|x t].
  - split; [done | by intros (? & ? & ?)].
  - destruct (Re.char_matches ic p x) eqn:E; simpl; split.
    + intros [-> | []]. by exists x.
    + intros (y & [= -> ->] & _). by left.
    + done.
    + intros (y & [= -> ->] & H). congruence.
Qed.

Lemma in_match_seq ic r1 r2 s rest :
  In rest (Re.match_at ic (Re.Seq r1 r2) s) ↔
  ∃ mid, In mid (Re.match_at ic r1 s) ∧ In rest (Re.match_at ic r2 mid).
Proof. simpl. apply in_flat_map. Qed.

Lemma in_match_alt ic r1 r2 s rest :
  In rest (Re.match_at ic (Re.Alt r1 r2) s) ↔
  In rest (Re.match_at ic r1 s) ∨ In rest (Re.match_at ic r2 s).
Proof. simpl. apply in_app_iff. Qed.

Lemma in_match_dollar ic s rest :
  In rest (Re.match_at ic Re.Dollar s) ↔ rest = s ∧ Re.at_dollar s = true.
Proof.
  simpl. destruct (Re.at_dollar s); simpl; split.
  - by intros [-> | []].
  - intros [-> _]. by left.
  - done.
  - by intros [_ ?].
Qed.

Lemma matches_at_spec ic r s :
  Re.matches_at ic r s = true ↔ ∃ rest, In rest (Re.match_at ic r s).
Proof.
  unfold Re.matches_at. destruct (Re.match_at ic r s) as [|x l]; split.
  - done.
  - by intros [? []].
  - intros _. exists x. by left.
  - done.
Qed.

Lemma lower_eq_cons s c t :
  PyStr.lower s = String c t ↔
  ∃ x s', s = String x s' ∧ PyStr.lower_char x = c ∧ PyStr.lower s' = t.
Proof.
  destruct s as [|x s']; simpl; split.
  - done.
  - by intros (? & ? & ? & _).
  - intros [= <- <-]. by exists x, s'.
  - by intros (? & ? & [= <- <-] & <- & <-).
Qed.

Lemma lower_eq_nil s : PyStr.lower s = "" ↔ s = "".
Proof. by destruct s. Qed.

Lemma matches_at_audio s :
  Re.matches_at true AUDIO_EXT_RE s = true ↔
  ∃ ext tail, s = ext +:+ tail
    ∧ (PyStr.lower ext = ".wav" ∨ PyStr.lower ext = ".wave")
    ∧ Re.at_dollar tail = true.
Proof.
  rewrite matches_at_spec. unfold AUDIO_EXT_RE.
  repeat first
    [ setoid_rewrite in_match_seq | setoid_rewrite in_match_alt
    | setoid_rewrite in_match_lit | setoid_rewrite in_match_dollar
    | setoid_rewrite char_matches_ic ].
  change (PyStr.lower_char ".") with "."%char.
  change (PyStr.lower_char "w") with "w"%char.
  change (PyStr.lower_char "a") with "a"%char.
  change (PyStr.lower_char "v") with "v"%char.
  change (PyStr.lower_char "e") with "e"%char.
  split.
  - intros (rest & mid & (c0 & -> & H0) & mid0 & Halt & -> & Hd).
    destruct Halt as [(m1 & (c1 & -> & H1) & m2 & (c2 & -> & H2) & c3 & -> & H3)
                     |(m1 & (c1 & -> & H1) & m2 & (c2 & -> & H2) & m3
                        & (c3 & -> & H3) & c4 & -> & H4)].
    + exists (String c0 (String c1 (String c2 (String c3 "")))), mid0.
      simpl. rewrite H0, H1, H2, H3. auto.
    + exists (String c0 (String c1 (String c2 (String c3 (String c4 ""))))), mid0.
      simpl. rewrite H0, H1, H2, H3, H4. auto.
  - intros (ext & tail & -> & [H | H] & Hd).
    + repeat (apply lower_eq_cons in H as (? & ? & -> & ? & H)).
      apply lower_eq_nil in H as ->.
      exists tail. eexists. split; [eauto|].
      exists tail. split; [|done]. left.
      eexists. split; [eauto|]. eexists. split; [eauto|]. eauto.
    + repeat (apply lower_eq_cons in H as (? & ? & -> & ? & H)).
      apply lower_eq_nil in H as ->.
      exists tail. eexists. split; [eauto|].
      exists tail. split; [|done]. right.
      eexists. split; [eauto|]. eexists. split; [eauto|].
      eexists. split; [eauto|]. eauto.
Qed.

(** When [AUDIO_EXT_RE.search] finds a match: the name is a stem, an
    extension that lower-cases to [.wav] or [.wave], and then nothing
    or one newline. *)
Lemma AUDIO_EXT_RE_search_spec name :
  AUDIO_EXT_RE_search name = true ↔
  ∃ stem ext tail, name = stem +:+ ext +:+ tail
    ∧ (PyStr.lower ext = ".wav" ∨ PyStr.lower ext = ".wave")
    ∧ Re.at_dollar tail = true.
Proof.
  unfold AUDIO_EXT_RE_search. rewrite search_spec.
  setoid_rewrite matches_at_audio. split.
  - intros (pre & suf & -> & ext & tail & -> & H). by exists pre, ext, tail.
  - intros (stem & ext & tail & -> & H). exists stem, (ext +:+ tail).
    split; [done|]. by exists ext, tail.
Qed.

End regex.

(** ** The cache decorator and the Drive helpers *)

Section helpers.
Implicit Types w : world.

Lemma bind_eq {A B} (m : M A) (k : A → M B) w :
  (m ≫= k) w =
  match m w with
  | (Ok a, w') => k a w'
  | (Raise e, w') => (Raise e, w')
  | (OutOfFuel, w') => (OutOfFuel, w')
  end.
Proof. reflexivity. Qed.

Lemma get_drive_service_ready w :
  service_ready w = true → get_drive_service w = (Ok tt, w).
Proof.
  unfold service_ready, get_drive_service, secrets_dict. rewrite !bind_eq. simpl.
  destruct (secret_tables w !! "gcp_service_account"); [|done].
  simpl. rewrite bind_eq. simpl. by intros ->.
Qed.

(** Looking the credentials up changes nothing, and either returns or
    raises. *)
Lemma get_drive_service_state w :
  get_drive_service w = ((get_drive_service w).1, w)
  ∧ (get_drive_service w).1 ≠ OutOfFuel.
Proof.
  unfold get_drive_service, secrets_dict. rewrite !bind_eq. simpl.
  destruct (secret_tables w !! "gcp_service_account") as [t|]; simpl.
  - rewrite bind_eq. simpl. by destruct (credentials_ok _ _).
  - destruct (secrets w); [|done].
    destruct (secret_strings w !! "gcp_service_account") as [v|]; [|done].
    destruct (PyStr.truthy v); [done|]. simpl. rewrite bind_eq. simpl.
    by destruct (credentials_ok _ _).
Qed.

Lemma get_drive_service_fails w :
  (get_drive_service w).1 ≠ Ok tt → ∃ e, get_drive_service w = (Raise e, w).
Proof.
  intros H. destruct (get_drive_service_state w) as [Hs Hf]. rewrite Hs.
  destruct (get_drive_service w).1 as [[]|e|]; [done | by exists e | done].
Qed.

(** The credentials key is nowhere in the secrets file. *)
Lemma get_drive_service_absent w :
  secrets w ≠ None →
  secret_tables w !! "gcp_service_account" = None →
  secret_strings w !! "gcp_service_account" = None →
  get_drive_service w = (Raise (KeyError "gcp_service_account"), w).
Proof.
  intros Hf Ht Hs. unfold get_drive_service, secrets_dict. rewrite !bind_eq. simpl.
  rewrite Ht, Hs. by destruct (secrets w).
Qed.

(** The credentials key holds a string, not a table. *)
Lemma get_drive_service_string w v :
  secret_tables w !! "gcp_service_account" = None →
  secret_strings w !! "gcp_service_account" = Some v →
  PyStr.truthy v = true →
  get_drive_service w = (Raise ValueError, w).
Proof.
  intros Ht Hs Hv. unfold get_drive_service, secrets_dict. rewrite !bind_eq. simpl.
  rewrite Ht, Hs, Hv. destruct (secrets w) eqn:E; [done|].
  unfold secret_strings in Hs. rewrite E in Hs. by rewrite lookup_empty in Hs.
Qed.

Lemma get_drive_service_no_file w :
  secrets w = None → get_drive_service w = (Raise SecretNotFoundError, w).
Proof.
  intros Hf. unfold get_drive_service, secrets_dict. rewrite !bind_eq. simpl.
  unfold secret_tables. by rewrite Hf, lookup_empty.
Qed.

Lemma cache_data_hit {T} ttl (tbl : table T) func arg w v :
  fresh_value ttl (now w) (tbl_get tbl w !! arg) = Some v →
  cache_data ttl tbl func arg w = (Ok v, w).
Proof. intros H. unfold cache_data. by rewrite H. Qed.

Lemma cache_data_miss {T} ttl (tbl : table T) func arg w :
  fresh_value ttl (now w) (tbl_get tbl w !! arg) = None →
  cache_data ttl tbl func arg w =
  match func arg w with
  | (Ok v, w') =>
      (Ok v, tbl_set tbl (<[arg := CacheEntry v (now w')]> (tbl_get tbl w')) w')
  | failed => failed
  end.
Proof. intros H. unfold cache_data. by rewrite H. Qed.

Lemma fresh_value_empty {T} ttl t arg :
  fresh_value ttl t ((∅ : gmap string (cache_entry T)) !! arg) = None.
Proof. by rewrite lookup_empty. Qed.

Lemma fresh_value_stored {T} ttl t t' (v : T) :
  t' - t < ttl → fresh_value ttl t' (Some (CacheEntry v t)) = Some v.
Proof. intros H. simpl. by rewrite (proj2 (Z.ltb_lt _ _) H). Qed.

Lemma list_subfolders_body_eq root w :
  service_ready w = true →
  list_subfolders_body root w =
  match files_list_execute (drive w) (drive_log w) (subfolders_request root) with
  | inl e => (Raise e, log_call (FilesList (subfolders_request root)) w)
  | inr res => (Ok (default [] res), log_call (FilesList (subfolders_request root)) w)
  end.
Proof.
  intros H. unfold list_subfolders_body. rewrite bind_eq, get_drive_service_ready by done.
  rewrite bind_eq. unfold files_list. by destruct (files_list_execute _ _ _).
Qed.

Lemma list_wav_files_body_eq folder_id w :
  service_ready w = true →
  list_wav_files_body folder_id w =
  match files_list_execute (drive w) (drive_log w) (wav_files_request folder_id) with
  | inl e => (Raise e, log_call (FilesList (wav_files_request folder_id)) w)
  | inr res =>
      (Ok (wavs_of (default [] res)), log_call (FilesList (wav_files_request folder_id)) w)
  end.
Proof.
  intros H. unfold list_wav_files_body. rewrite bind_eq, get_drive_service_ready by done.
  rewrite bind_eq. unfold files_list. by destruct (files_list_execute _ _ _).
Qed.

End helpers.

(** ** [list_wav_files] *)

Section wav_files.
Implicit Types (w : world) (f : resource).

Lemma endswith_spec suf s :
  endswith suf s = true ↔ ∃ stem, s = stem +:+ suf.
Proof.
  induction s as [|c s IH]; cbn [endswith].
  - rewrite orb_false_r, String.eqb_eq. split.
    + intros <-. by exists "".
    + intros [[|] H]; [done | discriminate].
  - rewrite orb_true_iff, String.eqb_eq, IH. split.
    + intros [<- | [stem ->]]; [by exists "" | by exists (String c stem)].
    + intros [[|d stem] H]; [by left | right].
      rewrite append_cons in H. injection H as _ ->. by exists stem.
Qed.

Lemma lower_split s a b :
  PyStr.lower s = a +:+ b →
  ∃ x y, s = x +:+ y ∧ PyStr.lower x = a ∧ PyStr.lower y = b.
Proof.
  revert s. induction a as [|c a IH]; intros s H.
  - by exists "", s.
  - rewrite append_cons in H. apply lower_eq_cons in H as (x & s' & -> & <- & H).
    apply IH in H as (x' & y & -> & <- & <-). by exists (String x x'), y.
Qed.

Lemma has_audio_suffix_dec name :
  has_audio_suffix name ↔ audio_suffixb name = true.
Proof.
  unfold has_audio_suffix, audio_suffixb.
  rewrite orb_true_iff, !endswith_spec. split.
  - intros (stem & ext & -> & [H | H]); [left | right];
      exists (PyStr.lower stem); by rewrite lower_append, H.
  - intros [[stem H] | [stem H]];
      apply lower_split in H as (x & y & -> & _ & H); exists x, y; auto.
Qed.

(** An entry is kept exactly when it has a name that the pattern
    matches. *)
Lemma is_wav_spec f :
  is_wav f = true ↔
  ∃ n, f !! "name" = Some n ∧ n ≠ "" ∧ AUDIO_EXT_RE_search n = true.
Proof.
  unfold is_wav. destruct (f !! "name") as [n|]; split.
  - rewrite andb_true_iff, truthy_spec. intros [? ?]. by exists n.
  - intros (? & [= <-] & ? & ?). rewrite andb_true_iff, truthy_spec. done.
  - done.
  - by intros (? & ? & _).
Qed.

Lemma in_wavs_of f raw : In f (wavs_of raw) ↔ In f raw ∧ is_wav f = true.
Proof. apply filter_In. Qed.

Lemma wavs_of_has_name raw : Forall has_name (wavs_of raw).
Proof.
  apply List.Forall_forall. intros f [_ H]%in_wavs_of.
  apply is_wav_spec in H as (n & ? & ? & _). by exists n.
Qed.

(** What is kept in terms of the name alone: a stem, an extension
    that is [.wav] or [.wave] up to case, and at most one newline
    after it. *)
Lemma wavs_of_spec f raw :
  In f (wavs_of raw) ↔
  In f raw ∧ ∃ stem ext tail,
    f !! "name" = Some (stem +:+ ext +:+ tail)
    ∧ (PyStr.lower ext = ".wav" ∨ PyStr.lower ext = ".wave")
    ∧ (tail = "" ∨ tail = String PyStr.newline "").
Proof.
  rewrite in_wavs_of, is_wav_spec. setoid_rewrite AUDIO_EXT_RE_search_spec.
  split.
  - intros [Hin (n & Hn & _ & stem & ext & tail & -> & Hext & Hd)].
    split; [done|]. exists stem, ext, tail. split_and!; [done..|].
    destruct tail as [|c [|]]; [by left | right | done].
    simpl in Hd. by apply Ascii.eqb_eq in Hd as ->.
  - intros [Hin (stem & ext & tail & Hn & Hext & Hd)]. split; [done|].
    eexists. split; [done|]. split.
    + intros H. destruct stem; [|done]. rewrite append_nil_l in H.
      destruct ext; [|done]. by destruct Hext.
    + exists stem, ext, tail. by destruct Hd as [-> | ->].
Qed.

Lemma list_wav_files_miss folder_id w raw :
  service_ready w = true →
  fresh_value 60 (now w) (wav_files_cache w !! folder_id) = None →
  files_list_execute (drive w) (drive_log w) (wav_files_request folder_id) = inr raw →
  list_wav_files folder_id w =
  (Ok (wavs_of (default [] raw)),
   set_wav_files_cache
     (<[folder_id := CacheEntry (wavs_of (default [] raw)) (now w)]> (wav_files_cache w))
     (log_call (FilesList (wav_files_request folder_id)) w)).
Proof.
  intros Hs Hc Hd. unfold list_wav_files.
  rewrite cache_data_miss by done.
  by rewrite list_wav_files_body_eq, Hd.
Qed.

End wav_files.

(** C1, at a listing the code can receive: Drive answers with one entry
    named [a.wav] followed by a newline. [list_wav_files] returns that
    entry, although its name does not end in [.wav] or [.wave] in any
    case: [$] of [AUDIO_EXT_RE] also matches before a final newline. *)
Theorem list_wav_files_keeps_newline_name :
  (list_wav_files "folder" newline_world).1 = Ok [newline_entry]
  ∧ newline_entry !! "name" = Some newline_name
  ∧ ¬ has_audio_suffix newline_name.
Proof.
  split_and!.
  - by vm_compute.
  - by vm_compute.
  - rewrite has_audio_suffix_dec. by vm_compute.
Qed.

(** C10: on a listing fetched from Drive, [list_wav_files] returns
    (does not raise), every entry it returns has a name that is present
    and not empty, and an entry of the listing without such a name is
    not returned. *)
Theorem list_wav_files_drops_nameless (w : world) (folder_id : string)
    (raw : option (list resource)) :
  service_ready w = true →
  fresh_value 60 (now w) (wav_files_cache w !! folder_id) = None →
  files_list_execute (drive w) (drive_log w) (wav_files_request folder_id) = inr raw →
  ∃ files, (list_wav_files folder_id w).1 = Ok files
    ∧ Forall has_name files
    ∧ ∀ f, In f (default [] raw) → ¬ has_name f → ¬ In f files.
Proof.
  intros Hs Hc Hd. exists (wavs_of (default [] raw)).
  rewrite (list_wav_files_miss _ _ raw) by done. split_and!.
  - done.
  - apply wavs_of_has_name.
  - intros f _ Hn Hin. apply Hn.
    by apply (proj1 (List.Forall_forall _ _) (wavs_of_has_name (default [] raw))).
Qed.

Lemma list_wav_files_drops_nameless_witness :
  service_ready demo_world = true
  ∧ fresh_value 60 (now demo_world) (wav_files_cache demo_world !! "folder") = None
  ∧ files_list_execute (drive demo_world) (drive_log demo_world)
      (wav_files_request "folder") = inr (Some demo_listing)
  ∧ ∃ files, (list_wav_files "folder" demo_world).1 = Ok files
      ∧ Forall has_name files
      ∧ ∀ f, In f demo_listing → ¬ has_name f → ¬ In f files.
Proof.
  do 3 (split; [reflexivity|]).
  apply (list_wav_files_drops_nameless demo_world "folder" (Some demo_listing));
    reflexivity.
Defined.

(** C6: when [list_wav_files] has to ask Drive (no fresh entry for the
    folder) and Drive answers, a second call for the same folder, made
    less than 60 seconds later in a state where the entry is still in
    the table, returns the same list and leaves the state as it is: the
    two calls together make exactly one request, the one of the first
    call. *)
Theorem list_wav_files_twice (w w' : world) (folder_id : string)
    (raw : option (list resource)) :
  service_ready w = true →
  fresh_value 60 (now w) (wav_files_cache w !! folder_id) = None →
  files_list_execute (drive w) (drive_log w) (wav_files_request folder_id) = inr raw →
  let first := list_wav_files folder_id w in
  wav_files_cache w' !! folder_id = wav_files_cache first.2 !! folder_id →
  now first.2 ≤ now w' < now first.2 + 60 →
  let second := list_wav_files folder_id w' in
  first.1 = Ok (wavs_of (default [] raw))
  ∧ drive_log first.2 = drive_log w ++ [FilesList (wav_files_request folder_id)]
  ∧ second.1 = first.1
  ∧ second.2 = w'.
Proof.
  intros Hs Hc Hd first. subst first.
  rewrite (list_wav_files_miss _ _ raw) by done. simpl.
  intros Hkept Hnow. rewrite lookup_insert_eq in Hkept.
  assert (list_wav_files folder_id w' = (Ok (wavs_of (default [] raw)), w')) as ->.
  { apply cache_data_hit. simpl. rewrite Hkept.
    apply fresh_value_stored. lia. }
  done.
Qed.

Lemma list_wav_files_twice_witness :
  service_ready demo_world = true
  ∧ fresh_value 60 (now demo_world) (wav_files_cache demo_world !! "folder") = None
  ∧ files_list_execute (drive demo_world) (drive_log demo_world)
      (wav_files_request "folder") = inr (Some demo_listing)
  ∧ wav_files_cache (elapse 59 warm_world) !! "folder"
    = wav_files_cache warm_world !! "folder"
  ∧ now warm_world ≤ now (elapse 59 warm_world) < now warm_world + 60
  ∧ (list_wav_files "folder" demo_world).1 = Ok (wavs_of demo_listing)
  ∧ drive_log warm_world
    = drive_log demo_world ++ [FilesList (wav_files_request "folder")]
  ∧ (list_wav_files "folder" (elapse 59 warm_world)).1
    = (list_wav_files "folder" demo_world).1
  ∧ (list_wav_files "folder" (elapse 59 warm_world)).2 = elapse 59 warm_world.
Proof.
  do 4 (split; [reflexivity|]). split; [by vm_compute|].
  apply (list_wav_files_twice demo_world (elapse 59 warm_world)
           "folder" (Some demo_listing));
    first [reflexivity | by vm_compute].
Defined.

(** ** [list_subfolders] *)

Lemma list_subfolders_miss root w :
  service_ready w = true →
  fresh_value 60 (now w) (subfolders_cache w !! root) = None →
  list_subfolders root w =
  match files_list_execute (drive w) (drive_log w) (subfolders_request root) with
  | inl e => (Raise e, log_call (FilesList (subfolders_request root)) w)
  | inr res =>
      (Ok (default [] res),
       set_subfolders_cache
         (<[root := CacheEntry (default [] res) (now w)]> (subfolders_cache w))
         (log_call (FilesList (subfolders_request root)) w))
  end.
Proof.
  intros Hs Hc. unfold list_subfolders.
  rewrite cache_data_miss by done. rewrite list_subfolders_body_eq by done.
  by destruct (files_list_execute _ _ _).
Qed.

(** C9: when [list_subfolders] asks Drive, it makes one list request.
    Its filter is the conjunction of: child of the root, folder mime
    type, not trashed; the order asked for is by name. What Drive
    answers is returned as it is, so whatever holds of every entry Drive
    selects for that filter holds of every folder returned. *)
Theorem list_subfolders_request_args (w : world) (root : string) :
  service_ready w = true →
  fresh_value 60 (now w) (subfolders_cache w !! root) = None →
  let out := list_subfolders root w in
  ∃ req,
    drive_log out.2 = drive_log w ++ [FilesList req]
    ∧ q req = String.concat " and "
                [ "'" +:+ root +:+ "' in parents";
                  "mimeType = 'application/vnd.google-apps.folder'";
                  "trashed = false" ]
    ∧ orderBy req = "name"
    ∧ ∀ res, files_list_execute (drive w) (drive_log w) req = inr res →
        out.1 = Ok (default [] res)
        ∧ ∀ P : resource → Prop, Forall P (default [] res) →
            ∃ folders, out.1 = Ok folders ∧ Forall P folders.
Proof.
  intros Hs Hc out. subst out. exists (subfolders_request root).
  rewrite list_subfolders_miss by done. split_and!.
  - by destruct (files_list_execute _ _ _).
  - simpl. unfold subfolders_q, folder_mime.
    by rewrite !append_assoc.
  - done.
  - intros res ->. split; [done|]. intros P HP. by exists (default [] res).
Qed.

Lemma list_subfolders_request_args_witness :
  service_ready demo_world = true
  ∧ fresh_value 60 (now demo_world) (subfolders_cache demo_world !! "root") = None
  ∧ ∃ req,
      drive_log (list_subfolders "root" demo_world).2
      = drive_log demo_world ++ [FilesList req]
      ∧ q req = String.concat " and "
                  [ "'" +:+ "root" +:+ "' in parents";
                    "mimeType = 'application/vnd.google-apps.folder'";
                    "trashed = false" ]
      ∧ orderBy req = "name"
      ∧ ∀ res, files_list_execute (drive demo_world) (drive_log demo_world) req
               = inr res →
          (list_subfolders "root" demo_world).1 = Ok (default [] res)
          ∧ ∀ P : resource → Prop, Forall P (default [] res) →
              ∃ folders, (list_subfolders "root" demo_world).1 = Ok folders
                         ∧ Forall P folders.
Proof.
  do 2 (split; [reflexivity|]).
  apply (list_subfolders_request_args demo_world "root"); reflexivity.
Defined.

(** ** [download_file_bytes] *)

Section download.
Implicit Types (w : world) (fh : list byte).

Lemma downloader_next_chunk_eq file_id w r :
  next_chunk (drive w) (drive_log w) file_id = inr r →
  downloader_next_chunk file_id w = (Ok r, log_call (NextChunk file_id) w).
Proof. intros H. unfold downloader_next_chunk. by rewrite H. Qed.

Lemma reader_yields_head w file_id chunks last :
  reader_yields w file_id chunks last →
  next_chunk (drive w) (drive_log w) file_id
  = inr (hd last chunks, bool_decide (chunks = [])).
Proof.
  intros H. specialize (H 0%nat (Nat.le_0_l _)).
  simpl in H. rewrite app_nil_r in H. rewrite H.
  destruct chunks; simpl; by rewrite ?bool_decide_eq_true_2.
Qed.

Lemma reader_yields_tail w file_id c chunks last :
  reader_yields w file_id (c :: chunks) last →
  reader_yields (log_call (NextChunk file_id) w) file_id chunks last.
Proof.
  intros H i Hi. specialize (H (S i)). simpl in *.
  rewrite <- app_assoc. simpl. rewrite H by lia.
  do 2 f_equal. apply bool_decide_ext. lia.
Qed.

(** The loop asks once per chunk and appends the chunks in the order
    they arrive. *)
Lemma download_loop_yields file_id chunks : ∀ w fh fuel last,
  reader_yields w file_id chunks last →
  (length chunks < fuel)%nat →
  ∃ w', download_loop fuel file_id fh w = (Ok (fh ++ concat (chunks ++ [last])), w')
    ∧ drive_log w' = drive_log w ++ replicate (S (length chunks)) (NextChunk file_id).
Proof.
  induction chunks as [|c chunks IH]; intros w fh fuel last Hr Hf;
    (destruct fuel as [|fuel]; [simpl in Hf; lia|]);
    simpl download_loop; rewrite bind_eq;
    rewrite (downloader_next_chunk_eq _ _ _ (reader_yields_head _ _ _ _ Hr)); simpl.
  - eexists. split; [by rewrite app_nil_r | done].
  - destruct (IH (log_call (NextChunk file_id) w) (fh ++ c) fuel last)
      as (w' & -> & Hlog).
    { by eapply reader_yields_tail. }
    { simpl in Hf. lia. }
    exists w'. split; [by rewrite <- app_assoc|].
    rewrite Hlog. simpl. by rewrite <- app_assoc.
Qed.

End download.

(** C5: for a reader that yields finitely many chunks and flags the last
    one done, [download_file_bytes] (on a cache miss, given fuel for one
    request per chunk) asks for a chunk once per chunk and no more, and
    returns the chunks concatenated in the order they came. *)
Theorem download_file_bytes_concat (w : world) (file_id : string)
    (chunks : list (list byte)) (last : list byte) (fuel : nat) :
  service_ready w = true →
  fresh_value 3600 (now w) (bytes_cache w !! file_id) = None →
  reader_yields w file_id chunks last →
  (length chunks < fuel)%nat →
  let out := download_file_bytes fuel file_id w in
  out.1 = Ok (concat (chunks ++ [last]))
  ∧ drive_log out.2
    = drive_log w ++ replicate (S (length chunks)) (NextChunk file_id).
Proof.
  intros Hs Hc Hr Hf out. subst out. unfold download_file_bytes.
  rewrite cache_data_miss by done.
  unfold download_file_bytes_body. rewrite bind_eq, get_drive_service_ready by done.
  destruct (download_loop_yields file_id chunks w [] fuel last Hr Hf)
    as (w' & -> & Hlog).
  done.
Qed.

Lemma download_file_bytes_concat_witness :
  service_ready chunked_world = true
  ∧ fresh_value 3600 (now chunked_world) (bytes_cache chunked_world !! "f1") = None
  ∧ reader_yields chunked_world "f1" [AB; CD] EF
  ∧ (length [AB; CD] < 5)%nat
  ∧ (download_file_bytes 5 "f1" chunked_world).1
    = Ok [x41; x42; x43; x44; x45; x46]%byte
  ∧ drive_log (download_file_bytes 5 "f1" chunked_world).2
    = [NextChunk "f1"; NextChunk "f1"; NextChunk "f1"].
Proof.
  assert (reader_yields chunked_world "f1" [AB; CD] EF) as Hr.
  { intros i Hi. destruct i as [|[|[|i]]]; [reflexivity..|simpl in Hi; lia]. }
  do 2 (split; [reflexivity|]). split; [exact Hr|]. split; [simpl; lia|].
  apply (download_file_bytes_concat chunked_world "f1" [AB; CD] EF 5);
    first [reflexivity | exact Hr | simpl; lia].
Defined.

(** ** The refresh button *)

Section refresh.
Implicit Types w : world.

Lemma refresh_handler_eq w :
  refresh_handler w =
  (Raise RerunException,
   set_bytes_cache ∅ (set_wav_files_cache ∅ (set_subfolders_cache ∅
     (set_wav_files_cache ∅ (set_subfolders_cache ∅ w))))).
Proof. reflexivity. Qed.

Lemma download_loop_log file_id fuel : ∀ w fh,
  ∃ more, drive_log (download_loop fuel file_id fh w).2 = drive_log w ++ more.
Proof.
  induction fuel as [|fuel IH]; intros w fh; simpl.
  - exists []. by rewrite app_nil_r.
  - rewrite bind_eq. unfold downloader_next_chunk.
    destruct (next_chunk _ _ _) as [e | [chunk [|]]]; simpl.
    + by eexists.
    + by eexists.
    + destruct (IH (log_call (NextChunk file_id) w) (fh ++ chunk)) as [more ->].
      simpl. rewrite <- app_assoc. by eexists.
Qed.

(** With fuel for one request, the loop makes one. *)
Lemma download_loop_asks file_id fuel w fh :
  ∃ more, drive_log (download_loop (S fuel) file_id fh w).2
          = drive_log w ++ NextChunk file_id :: more.
Proof.
  simpl. rewrite bind_eq. unfold downloader_next_chunk.
  destruct (next_chunk _ _ _) as [e | [chunk [|]]]; simpl.
  - by exists [].
  - by exists [].
  - destruct (download_loop_log file_id fuel
                (log_call (NextChunk file_id) w) (fh ++ chunk)) as [more ->].
    simpl. rewrite <- app_assoc. by exists more.
Qed.

Lemma download_file_bytes_miss_asks file_id fuel w :
  service_ready w = true →
  fresh_value 3600 (now w) (bytes_cache w !! file_id) = None →
  ∃ more, drive_log (download_file_bytes (S fuel) file_id w).2
          = drive_log w ++ NextChunk file_id :: more.
Proof.
  intros Hs Hc. unfold download_file_bytes. rewrite cache_data_miss by done.
  unfold download_file_bytes_body. rewrite bind_eq, get_drive_service_ready by done.
  destruct (download_loop_asks file_id fuel w []) as [more H].
  exists more. by destruct (download_loop _ _ _ _) as [[| |] ?].
Qed.

End refresh.

(** C7: the refresh block ends the run with a rerun request and leaves
    the three cache tables empty. In any later state [w'] whose tables
    are as the refresh left them, whatever its clock says, the next call
    of [list_subfolders], [list_wav_files] or [download_file_bytes]
    sends a request to Drive. *)
Theorem refresh_forces_refetch (w w' : world) (arg : string) (fuel : nat) :
  let after := (refresh_handler w).2 in
  service_ready w' = true →
  subfolders_cache w' = subfolders_cache after →
  wav_files_cache w' = wav_files_cache after →
  bytes_cache w' = bytes_cache after →
  (refresh_handler w).1 = Raise RerunException
  ∧ (subfolders_cache after = ∅ ∧ wav_files_cache after = ∅ ∧ bytes_cache after = ∅)
  ∧ drive_log (list_subfolders arg w').2
    = drive_log w' ++ [FilesList (subfolders_request arg)]
  ∧ drive_log (list_wav_files arg w').2
    = drive_log w' ++ [FilesList (wav_files_request arg)]
  ∧ ∃ more, drive_log (download_file_bytes (S fuel) arg w').2
            = drive_log w' ++ NextChunk arg :: more.
Proof.
  intros after Hs H1 H2 H3. subst after. rewrite refresh_handler_eq in *.
  simpl in H1, H2, H3. split_and!; try done.
  - rewrite list_subfolders_miss by (by rewrite ?H1, ?fresh_value_empty).
    by destruct (files_list_execute _ _ _).
  - unfold list_wav_files. rewrite cache_data_miss
      by (simpl; by rewrite ?H2, ?fresh_value_empty).
    rewrite list_wav_files_body_eq by done.
    by destruct (files_list_execute _ _ _).
  - apply download_file_bytes_miss_asks; [done|].
    by rewrite H3, fresh_value_empty.
Qed.

Lemma refresh_forces_refetch_witness :
  service_ready refreshed_world = true
  ∧ subfolders_cache refreshed_world = subfolders_cache (refresh_handler warm_world).2
  ∧ wav_files_cache refreshed_world = wav_files_cache (refresh_handler warm_world).2
  ∧ bytes_cache refreshed_world = bytes_cache (refresh_handler warm_world).2
  ∧ (refresh_handler warm_world).1 = Raise RerunException
  ∧ (subfolders_cache (refresh_handler warm_world).2 = ∅
     ∧ wav_files_cache (refresh_handler warm_world).2 = ∅
     ∧ bytes_cache (refresh_handler warm_world).2 = ∅)
  ∧ drive_log (list_subfolders "folder" refreshed_world).2
    = drive_log refreshed_world ++ [FilesList (subfolders_request "folder")]
  ∧ drive_log (list_wav_files "folder" refreshed_world).2
    = drive_log refreshed_world ++ [FilesList (wav_files_request "folder")]
  ∧ ∃ more, drive_log (download_file_bytes 1 "folder" refreshed_world).2
            = drive_log refreshed_world ++ NextChunk "folder" :: more.
Proof.
  do 4 (split; [by vm_compute|]).
  apply (refresh_forces_refetch warm_world refreshed_world "folder" 0);
    by vm_compute.
Defined.

(** ** Pagination *)

Section pagination.

Lemma ceil_div_Qceiling (a b : Z) :
  0 < b → (a + b - 1) / b = Qceiling (inject_Z a / inject_Z b).
Proof.
  intros Hb. unfold Qceiling.
  assert (- (inject_Z a / inject_Z b) == inject_Z (- a) / inject_Z b)%Q as ->.
  { rewrite inject_Z_opp. unfold Qdiv. ring. }
  rewrite <- Zdiv_Qdiv.
  symmetry. apply (Z.div_unique_pos _ _ _ (b - 1 - (- a) mod b)).
  - pose proof (Z.mod_pos_bound (- a) b Hb). lia.
  - pose proof (Z.div_mod (- a) b). lia.
Qed.

Lemma slice_bound_nonneg len i : 0 ≤ i → slice_bound len i = Z.min i len.
Proof. intros H. unfold slice_bound. by rewrite (proj2 (Z.ltb_ge _ _) H). Qed.

(** A slice with bounds that are not negative, entry by entry. *)
Lemma py_slice_lookup {A} (l : list A) (start stop : Z) (i : nat) :
  0 ≤ start → 0 ≤ stop →
  py_slice l start stop !! i =
  if bool_decide (start + Z.of_nat i < Z.min stop (Z.of_nat (length l)))
  then l !! Z.to_nat (start + Z.of_nat i) else None.
Proof.
  intros H1 H2. unfold py_slice. rewrite !slice_bound_nonneg by done.
  case_bool_decide as Hi.
  - rewrite lookup_take_lt by lia. rewrite lookup_drop. f_equal. lia.
  - set (n := Z.to_nat _). destruct (decide (n ≤ i)%nat).
    + by apply lookup_take_ge.
    + rewrite lookup_take_lt by lia. rewrite lookup_drop.
      apply lookup_ge_None_2. lia.
Qed.

Lemma py_slice_length {A} (l : list A) (start stop : Z) :
  0 ≤ start → 0 ≤ stop →
  Z.of_nat (length (py_slice l start stop))
  = Z.max 0 (Z.min stop (Z.of_nat (length l)) - start).
Proof.
  intros H1 H2. unfold py_slice. rewrite !slice_bound_nonneg by done.
  rewrite length_take, length_drop. lia.
Qed.

Lemma py_slice_nil {A} (start stop : Z) : py_slice (@nil A) start stop = [].
Proof. unfold py_slice. by rewrite drop_nil, take_nil. Qed.

End pagination.

(** C2: the number of pages is [max(1, ceil(total / page_size))], and
    page [page] is the part of the filtered list from position
    [(page-1)*page_size] up to, not including, position
    [min(total, page*page_size)]. With 125 files and 50 per page there
    are 3 pages, page 1 is the first 50 files and page 3 the 25 files
    from position 100 on. *)
Theorem pagination_slice (files : list resource) (page page_size : Z) :
  0 < page_size → 1 ≤ page →
  let total := Z.of_nat (length files) in
  let lo := (page - 1) * page_size in
  let hi := Z.min total (page * page_size) in
  page_count total page_size
  = Z.max 1 (Qceiling (inject_Z total / inject_Z page_size))
  ∧ (∀ i : nat,
       files_page files page page_size !! i =
       if bool_decide (lo + Z.of_nat i < hi)
       then files !! Z.to_nat (lo + Z.of_nat i) else None)
  ∧ Z.of_nat (length (files_page files page page_size)) = Z.max 0 (hi - lo)
  ∧ (total = 125 → page_size = 50 →
       page_count total page_size = 3
       ∧ files_page files 1 page_size = take 50 files
       ∧ files_page files 3 page_size = drop 100 files
       ∧ length (drop 100 files) = 25%nat).
Proof.
  intros Hps Hp total lo hi. split_and!.
  - unfold page_count. by rewrite ceil_div_Qceiling.
  - intros i. unfold files_page, page_end, page_start.
    rewrite py_slice_lookup by nia. fold total lo.
    replace (Z.min (Z.min (lo + page_size) total) total) with hi by (subst lo hi; lia).
    done.
  - unfold files_page, page_end, page_start.
    rewrite py_slice_length by nia. fold total lo. subst hi lo. lia.
  - intros Ht ->. rewrite Ht.
    assert (length files = 125%nat) as Hlen by (subst total; lia).
    unfold files_page, py_slice. rewrite Hlen. split_and!.
    + done.
    + done.
    + cbn. rewrite take_ge; [done|]. rewrite length_drop, Hlen. done.
    + rewrite length_drop, Hlen. done.
Qed.

(** C8: without files there is one page, and the page shown is empty,
    whatever the page size between 10 and 200 and the page number. *)
Theorem pagination_empty (page page_size : Z) :
  10 ≤ page_size ≤ 200 →
  page_count 0 page_size = 1
  ∧ files_page [] page page_size = []
  ∧ ∀ fuel idx w,
      render_files fuel idx (files_page [] page page_size) w = (Ok tt, w).
Proof.
  intros Hps.
  assert (files_page [] page page_size = []) as Hnil.
  { unfold files_page. apply py_slice_nil. }
  split_and!.
  - unfold page_count. rewrite Z.div_small by lia. done.
  - done.
  - intros fuel idx w. by rewrite Hnil.
Qed.

Lemma pagination_empty_witness :
  10 ≤ 50 ≤ 200
  ∧ page_count 0 50 = 1
  ∧ files_page [] 7 50 = []
  ∧ ∀ fuel idx w, render_files fuel idx (files_page [] 7 50) w = (Ok tt, w).
Proof. split; [lia | apply (pagination_empty 7 50); lia]. Defined.

Lemma pagination_slice_witness :
  0 < 50 ∧ 1 ≤ 3
  ∧ page_count 125 50 = 3
  ∧ (∀ i : nat,
       files_page (numbered_files 125) 3 50 !! i =
       if bool_decide (100 + Z.of_nat i < 125)
       then (numbered_files 125) !! Z.to_nat (100 + Z.of_nat i) else None)
  ∧ Z.of_nat (length (files_page (numbered_files 125) 3 50)) = 25
  ∧ (125 = 125 → 50 = 50 →
       page_count 125 50 = 3
       ∧ files_page (numbered_files 125) 1 50 = take 50 (numbered_files 125)
       ∧ files_page (numbered_files 125) 3 50 = drop 100 (numbered_files 125)
       ∧ length (drop 100 (numbered_files 125)) = 25%nat).
Proof.
  split; [lia|]. split; [lia|].
  apply (pagination_slice (numbered_files 125) 3 50); lia.
Defined.

(** ** The search box *)

Section search.
Implicit Types (f : resource) (files : list resource).






Lemma filter_sublist {A} (p : A → bool) (l : list A) :
  sublist (List.filter p l) l.
Proof.
  induction l as [|x l IH]; simpl; [constructor|].
  destruct (p x); by constructor.
Qed.

End search.


(** ** The search box, on any text *)

Section any_search.
Context {char : Type} `{EqDecision char}.
Implicit Types (s sub : list char) (is_space : char → bool).







End any_search.

(** ** The page's strings as texts *)

Section latin1.

Lemma chars_append s t : chars (s +:+ t) = chars s ++ chars t.
Proof. induction s as [|c s IH]; [done|]. rewrite append_cons. simpl. by rewrite IH. Qed.








End latin1.




(** ** The script without its settings *)

Section settings.
Implicit Types w : world.

(** Whether the service object can be built depends on the secrets and
    on the libraries only. *)
Lemma get_drive_service_same w w' :
  secrets w' = secrets w → drive w' = drive w →
  (get_drive_service w').1 = (get_drive_service w).1.
Proof.
  intros Hs Hd. destruct w, w'. simpl in Hs, Hd. subst.
  unfold get_drive_service, secrets_dict, secret_tables, secret_strings.
  rewrite !bind_eq. simpl.
  destruct secrets0 as [t|]; simpl; [|by rewrite lookup_empty].
  destruct (toml_tables t !! "gcp_service_account"); simpl.
  { rewrite !bind_eq. simpl. by destruct (credentials_ok _ _). }
  destruct (toml_strings t !! "gcp_service_account") as [v|]; [|done].
  destruct (PyStr.truthy v); [done|]. simpl. rewrite !bind_eq. simpl.
  by destruct (credentials_ok _ _).
Qed.

Lemma keeps_ret {A} (a : A) : keeps (mret a).
Proof. by intros w H. Qed.

Lemma keeps_raise {A} e : keeps (@raise A e).
Proof. by intros w H. Qed.

Lemma keeps_lift {A} (r : result A) : keeps (lift r).
Proof. by intros w H. Qed.

Lemma keeps_get_world : keeps get_world.
Proof. by intros w H. Qed.

Lemma keeps_bind {A B} (m : M A) (k : A → M B) :
  keeps m → (∀ a, keeps (k a)) → keeps (m ≫= k).
Proof.
  intros Hm Hk w H. rewrite bind_eq. destruct (Hm w H) as (H1 & H2 & H3).
  destruct (m w) as [[a | e |] w1]; simpl in *; [|done..].
  destruct (Hk a w1) as (H4 & H5 & H6).
  { by rewrite (get_drive_service_same w w1). }
  split_and!; congruence.
Qed.

Lemma keeps_show e : keeps (modify (show e)).
Proof. by intros w H. Qed.

Lemma keeps_clear_table {T} (tbl : table T) :
  (∀ c w, secrets (tbl_set tbl c w) = secrets w
          ∧ drive (tbl_set tbl c w) = drive w
          ∧ drive_log (tbl_set tbl c w) = drive_log w) →
  keeps (clear_table tbl).
Proof. intros Ht w H. simpl. apply Ht. Qed.

Lemma keeps_st_secrets_get key : keeps (st_secrets_get key).
Proof.
  intros w H. unfold st_secrets_get. rewrite bind_eq. simpl.
  by destruct (secrets w) eqn:E; simpl; rewrite ?E.
Qed.

(** When the service object cannot be built, a cached helper either
    serves its cache or raises what [get_drive_service] raised; either
    way the state is untouched. *)
Lemma cache_data_no_credentials {T} ttl (tbl : table T) func arg w e :
  func arg w = (Raise e, w) →
  (cache_data ttl tbl func arg w).2 = w.
Proof.
  intros Hf. unfold cache_data.
  destruct (fresh_value _ _ _); [done|]. by rewrite Hf.
Qed.

Lemma list_subfolders_body_no_credentials root w e :
  get_drive_service w = (Raise e, w) →
  list_subfolders_body root w = (Raise e, w).
Proof. intros H. unfold list_subfolders_body. by rewrite bind_eq, H. Qed.

Lemma list_wav_files_body_no_credentials folder_id w e :
  get_drive_service w = (Raise e, w) →
  list_wav_files_body folder_id w = (Raise e, w).
Proof. intros H. unfold list_wav_files_body. by rewrite bind_eq, H. Qed.

Lemma download_file_bytes_body_no_credentials fuel file_id w e :
  get_drive_service w = (Raise e, w) →
  download_file_bytes_body fuel file_id w = (Raise e, w).
Proof. intros H. unfold download_file_bytes_body. by rewrite bind_eq, H. Qed.

Lemma keeps_list_subfolders root : keeps (list_subfolders root).
Proof.
  intros w [e H]%get_drive_service_fails. unfold list_subfolders.
  by rewrite (cache_data_no_credentials _ _ _ _ _ e)
    by by apply list_subfolders_body_no_credentials.
Qed.

Lemma keeps_list_wav_files folder_id : keeps (list_wav_files folder_id).
Proof.
  intros w [e H]%get_drive_service_fails. unfold list_wav_files.
  by rewrite (cache_data_no_credentials _ _ _ _ _ e)
    by by apply list_wav_files_body_no_credentials.
Qed.

Lemma keeps_download_file_bytes fuel file_id :
  keeps (download_file_bytes fuel file_id).
Proof.
  intros w [e H]%get_drive_service_fails. unfold download_file_bytes.
  by rewrite (cache_data_no_credentials _ _ _ _ _ e)
    by by apply download_file_bytes_body_no_credentials.
Qed.

Lemma keeps_getitem d key : keeps (getitem d key).
Proof. unfold getitem. destruct (d !! key); [apply keeps_ret | apply keeps_raise]. Qed.

Lemma keeps_names_of folders : keeps (names_of folders).
Proof.
  induction folders as [|f rest IH]; simpl; [apply keeps_ret|].
  apply keeps_bind; [apply keeps_getitem|]. intros n.
  apply keeps_bind; [done|]. intros ns. apply keeps_ret.
Qed.

Lemma keeps_next_named folders sel : keeps (next_named folders sel).
Proof.
  induction folders as [|f rest IH]; simpl; [apply keeps_raise|].
  apply keeps_bind; [apply keeps_getitem|]. intros n.
  case_bool_decide; [apply keeps_ret | done].
Qed.

Create HintDb keeps.

Hint Resolve keeps_ret keeps_raise keeps_lift keeps_get_world keeps_show
  keeps_list_subfolders keeps_list_wav_files keeps_download_file_bytes
  keeps_getitem keeps_names_of keeps_next_named keeps_st_secrets_get : keeps.

Ltac keeps_step :=
  first [ apply keeps_bind; [|intros ?] | solve [eauto with keeps] ].

Lemma keeps_render_files fuel files : ∀ idx, keeps (render_files fuel idx files).
Proof.
  induction files as [|f rest IH]; intros idx; simpl; [apply keeps_ret|].
  unfold audio_player_nodownload. repeat keeps_step.
Qed.

Lemma keeps_refresh_handler : keeps refresh_handler.
Proof.
  unfold refresh_handler, cache_data_clear.
  repeat first [ keeps_step | by apply keeps_clear_table ].
Qed.

(** No run of the script talks to Drive when the service object
    cannot be built. *)
Lemma keeps_script fuel ui : keeps (script fuel ui).
Proof.
  unfold script, st_button, st_selectbox, st_text_input, st_number_input.
  repeat first
    [ keeps_step
    | apply keeps_refresh_handler
    | apply keeps_render_files
    | match goal with |- keeps (if ?b then _ else _) => destruct b end
    | match goal with |- keeps (match ?l with [] => _ | _ :: _ => _ end) =>
        destruct l end ].
Qed.

(** A root id that is set comes from a secrets file. *)
Lemma root_set_file w :
  PyStr.truthy (default "" (secret_strings w !! "GDRIVE_ROOT_FOLDER_ID")) = true →
  secrets w ≠ None.
Proof.
  intros H Hn. unfold secret_strings in H. rewrite Hn in H.
  by rewrite lookup_empty in H.
Qed.

Lemma st_secrets_get_file key w :
  secrets w ≠ None → st_secrets_get key w = (Ok (secret_strings w !! key), w).
Proof.
  intros H. unfold st_secrets_get. rewrite bind_eq. simpl. by destruct (secrets w).
Qed.

(** Runs the script up to the next call that is not plain sequencing,
    with what is known of the root id and of the refresh button. *)
Ltac run_script Hroot Hclick :=
  repeat first
    [ rewrite bind_eq | rewrite Hroot | rewrite Hclick
    | rewrite st_secrets_get_file by done
    | progress cbn [modify get_world raise mret M_ret show] ].

Lemma script_no_file fuel ui w :
  secrets w = None →
  script fuel ui w = (Raise SecretNotFoundError, show Title (show SetPageConfig w)).
Proof.
  intros H. unfold script, st_secrets_get. do 3 (rewrite bind_eq; cbn [modify]).
  rewrite bind_eq. cbn [get_world]. simpl. by rewrite H.
Qed.

Lemma script_missing_root fuel ui w :
  secrets w ≠ None →
  PyStr.truthy (default "" (secret_strings w !! "GDRIVE_ROOT_FOLDER_ID")) = false →
  script fuel ui w =
  (Raise StopException,
   show (Error missing_root_msg) (show Title (show SetPageConfig w))).
Proof.
  intros Hf H. unfold script.
  change (secret_strings w) with
    (secret_strings (show Title (show SetPageConfig w))) in H.
  by run_script H H.
Qed.

(** With the root id set, a run that has to ask Drive for the
    subfolders ends in what [get_drive_service] raises, after the
    refresh button was put on the page. *)
Lemma script_missing_credentials fuel ui w e :
  let root_id := default "" (secret_strings w !! "GDRIVE_ROOT_FOLDER_ID") in
  PyStr.truthy root_id = true →
  get_drive_service w = (Raise e, w) →
  refresh_clicked ui = false →
  fresh_value 60 (now w) (subfolders_cache w !! root_id) = None →
  script fuel ui w =
  (Raise e, show Button (show SidebarHeader (show Title (show SetPageConfig w)))).
Proof.
  intros root_id Hroot Hcreds Hclick Hcache. unfold root_id in *.
  pose proof (root_set_file w Hroot) as Hf.
  change (secret_strings w) with
    (secret_strings (show Title (show SetPageConfig w))) in Hroot.
  unfold script, st_button. run_script Hroot Hclick.
  unfold list_subfolders. rewrite cache_data_miss by done.
  rewrite (list_subfolders_body_no_credentials _ _ e); [done|].
  set (w0 := show Button _).
  destruct (get_drive_service_state w0) as [-> _].
  rewrite (get_drive_service_same w w0) by done. by rewrite Hcreds.
Qed.

(** With the root id set, a click on the refresh button is acted on
    whatever the other settings are. *)
Lemma script_refresh fuel ui w :
  PyStr.truthy (default "" (secret_strings w !! "GDRIVE_ROOT_FOLDER_ID")) = true →
  refresh_clicked ui = true →
  script fuel ui w =
  refresh_handler (show Button (show SidebarHeader (show Title (show SetPageConfig w)))).
Proof.
  intros Hroot Hclick.
  pose proof (root_set_file w Hroot) as Hf.
  change (secret_strings w) with
    (secret_strings (show Title (show SetPageConfig w))) in Hroot.
  unfold script, st_button. run_script Hroot Hclick.
  by rewrite refresh_handler_eq.
Qed.

End settings.

(** C4, as the code has it. Without a secrets file the run ends at the
    lookup of the root folder id, in the exception of [st.secrets],
    before any widget and any request to Drive. With the file there and
    the root id absent or the empty string (the root id is read as a
    string: a file that gives it as a table is left out), the run stops
    right after the message about it, before any widget and any request.
    When the service object cannot be built no run sends a request to
    Drive; there is no check of its own for that: with the root id set
    and nothing cached, the run ends in what [get_drive_service] raises
    when [list_subfolders] calls it, after the refresh button was put on
    the page: [KeyError] when the credentials key is nowhere in the
    file, [ValueError] when it holds a string. *)
Theorem script_missing_settings (fuel : nat) (ui : interaction) (w : world) :
  let root_id := default "" (secret_strings w !! "GDRIVE_ROOT_FOLDER_ID") in
  (secrets w = None →
     script fuel ui w
     = (Raise SecretNotFoundError, show Title (show SetPageConfig w)))
  ∧ (secrets w ≠ None →
     secret_tables w !! "GDRIVE_ROOT_FOLDER_ID" = None →
     PyStr.truthy root_id = false →
     script fuel ui w =
     (Raise StopException,
      show (Error missing_root_msg) (show Title (show SetPageConfig w)))
     ∧ halted_on_configuration w (script fuel ui w))
  ∧ ((get_drive_service w).1 ≠ Ok tt →
       drive_log (script fuel ui w).2 = drive_log w
       ∧ (PyStr.truthy root_id = true →
          refresh_clicked ui = false →
          fresh_value 60 (now w) (subfolders_cache w !! root_id) = None →
          ∃ e, (get_drive_service w).1 = Raise e
            ∧ script fuel ui w =
              (Raise e,
               show Button (show SidebarHeader (show Title (show SetPageConfig w))))))
  ∧ (secrets w ≠ None →
     secret_tables w !! "gcp_service_account" = None →
     secret_strings w !! "gcp_service_account" = None →
     (get_drive_service w).1 = Raise (KeyError "gcp_service_account"))
  ∧ (∀ v, secret_tables w !! "gcp_service_account" = None →
       secret_strings w !! "gcp_service_account" = Some v →
       PyStr.truthy v = true →
       (get_drive_service w).1 = Raise ValueError).
Proof.
  intros root_id. split_and!.
  - apply script_no_file.
  - intros Hf _ Hroot. rewrite script_missing_root by done. split; [done|].
    unfold halted_on_configuration, put_on_page. simpl.
    rewrite <- !app_assoc, drop_app_length. simpl. split_and!; try done.
    exists missing_root_msg. auto.
  - intros Hcreds. split.
    + by apply keeps_script.
    + intros Hroot Hclick Hcache.
      destruct (get_drive_service_fails w Hcreds) as [e He]. exists e.
      split; [by rewrite He|]. by apply script_missing_credentials.
  - intros Hf Ht Hs. by rewrite get_drive_service_absent.
  - intros v Ht Hs Hv. by rewrite (get_drive_service_string w v).
Qed.

Lemma script_missing_settings_witness :
  (secrets (no_secrets_world (scripted_drive [] [])) = None
   ∧ script 1 untouched (no_secrets_world (scripted_drive [] []))
     = (Raise SecretNotFoundError,
        show Title (show SetPageConfig (no_secrets_world (scripted_drive [] [])))))
  ∧ (secrets (fresh_world ∅ ∅ (scripted_drive [] [])) ≠ None
     ∧ secret_tables (fresh_world ∅ ∅ (scripted_drive [] [])) !! "GDRIVE_ROOT_FOLDER_ID"
       = None
     ∧ PyStr.truthy (default "" (secret_strings (fresh_world ∅ ∅ (scripted_drive [] []))
                                 !! "GDRIVE_ROOT_FOLDER_ID")) = false
     ∧ script 1 untouched (fresh_world ∅ ∅ (scripted_drive [] []))
       = (Raise StopException,
          show (Error missing_root_msg)
            (show Title (show SetPageConfig (fresh_world ∅ ∅ (scripted_drive [] []))))))
  ∧ ((get_drive_service no_credentials_world).1 ≠ Ok tt
     ∧ drive_log (script 1 untouched no_credentials_world).2
       = drive_log no_credentials_world
     ∧ (get_drive_service no_credentials_world).1
       = Raise (KeyError "gcp_service_account")
     ∧ ∃ e, (get_drive_service no_credentials_world).1 = Raise e
         ∧ script 1 untouched no_credentials_world
           = (Raise e,
              show Button (show SidebarHeader (show Title
                (show SetPageConfig no_credentials_world)))))
  ∧ (secret_tables string_credentials_world !! "gcp_service_account" = None
     ∧ secret_strings string_credentials_world !! "gcp_service_account" = Some "abc"
     ∧ PyStr.truthy "abc" = true
     ∧ (get_drive_service string_credentials_world).1 = Raise ValueError).
Proof.
  split; [|split; [|split]].
  - split; [reflexivity|].
    apply (proj1 (script_missing_settings 1 untouched
                    (no_secrets_world (scripted_drive [] [])))).
    reflexivity.
  - assert (H1 : secrets (fresh_world ∅ ∅ (scripted_drive [] [])) ≠ None) by done.
    assert (H2 : secret_tables (fresh_world ∅ ∅ (scripted_drive [] []))
                 !! "GDRIVE_ROOT_FOLDER_ID" = None) by by vm_compute.
    assert (H3 : PyStr.truthy
                   (default "" (secret_strings (fresh_world ∅ ∅ (scripted_drive [] []))
                                !! "GDRIVE_ROOT_FOLDER_ID")) = false) by by vm_compute.
    do 3 (split; [assumption|]).
    exact (proj1 (proj1 (proj2 (script_missing_settings 1 untouched
                                  (fresh_world ∅ ∅ (scripted_drive [] [])))) H1 H2 H3)).
  - assert (Hc : (get_drive_service no_credentials_world).1 ≠ Ok tt) by by vm_compute.
    destruct (proj1 (proj2 (proj2 (script_missing_settings 1 untouched
                                     no_credentials_world))) Hc) as [Hlog Hrun].
    split; [exact Hc|]. split; [exact Hlog|]. split.
    + apply (proj1 (proj2 (proj2 (proj2 (script_missing_settings 1 untouched
                                           no_credentials_world))))); by vm_compute.
    + apply Hrun; by vm_compute.
  - assert (H1 : secret_tables string_credentials_world !! "gcp_service_account" = None)
      by by vm_compute.
    assert (H2 : secret_strings string_credentials_world !! "gcp_service_account"
                 = Some "abc") by by vm_compute.
    assert (H3 : PyStr.truthy "abc" = true) by done.
    do 3 (split; [assumption|]).
    exact (proj2 (proj2 (proj2 (proj2 (script_missing_settings 1 untouched
                                         string_credentials_world)))) "abc" H1 H2 H3).
Defined.

(** C4, as the specification words it, fails when only the credentials
    are missing: at start-up the run ends in [KeyError] with the refresh
    button on the page and no error message put there by the script,
    and a click on that button is acted on (tables cleared, rerun
    asked) instead of the run being stopped. *)
Lemma script_no_credentials_counterexample :
  secret_tables no_credentials_world !! "gcp_service_account" = None
  ∧ (script 1 untouched no_credentials_world).1
    = Raise (KeyError "gcp_service_account")
  ∧ put_on_page no_credentials_world (script 1 untouched no_credentials_world)
    = [SetPageConfig; Title; SidebarHeader; Button]
  ∧ (script 1 refresh_click no_credentials_world).1 = Raise RerunException
  ∧ ¬ halted_on_configuration no_credentials_world
        (script 1 untouched no_credentials_world)
  ∧ ¬ halted_on_configuration no_credentials_world
        (script 1 refresh_click no_credentials_world).
Proof.
  split_and!; try by vm_compute.
  - intros (H & _). by vm_compute in H.
  - intros (H & _). by vm_compute in H.
Qed.

(** * Further properties of the helpers and of the page *)

(** ** The listing helpers: what is kept, failures, expiry *)

Section listing_more.
Implicit Types (w : world) (f : resource).

Lemma has_audio_suffix_search n :
  has_audio_suffix n → AUDIO_EXT_RE_search n = true.
Proof.
  intros (stem & ext & -> & H). apply AUDIO_EXT_RE_search_spec.
  exists stem, ext, "". by rewrite append_nil_r.
Qed.

Lemma has_audio_suffix_nonempty n : has_audio_suffix n → n ≠ "".
Proof.
  intros (stem & ext & -> & H) Hn.
  destruct stem; [|done]. rewrite append_nil_l in Hn. subst ext.
  by destruct H.
Qed.

Lemma table_ok_subfolders : table_ok subfolders_table.
Proof. by split. Qed.

Lemma table_ok_wav_files : table_ok wav_files_table.
Proof. by split. Qed.

Lemma table_ok_bytes : table_ok bytes_table.
Proof. by split. Qed.

(** A call that returned has left a fresh entry behind: the same call
    made again in the state it left, with any function behind the
    decorator, is answered from the table. *)
Lemma cache_data_repeat {T} ttl (tbl : table T) func func' arg w v w1 :
  table_ok tbl → 0 < ttl →
  cache_data ttl tbl func arg w = (Ok v, w1) →
  cache_data ttl tbl func' arg w1 = (Ok v, w1).
Proof.
  intros [Hget Hnow] Httl H. unfold cache_data in H.
  destruct (fresh_value ttl (now w) (tbl_get tbl w !! arg)) as [v0|] eqn:E.
  - injection H as <- <-. by apply cache_data_hit.
  - destruct (func arg w) as [[v0| |] w0]; try done.
    injection H as <- <-. apply cache_data_hit.
    rewrite Hget, Hnow, lookup_insert_eq. apply fresh_value_stored. lia.
Qed.

End listing_more.

(** X1: on a listing fetched from Drive, [list_wav_files] keeps the
    entries of the answer in the order Drive gave them, and keeps every
    entry of the answer whose name ends in [.wav] or [.wave] in any
    case. The answer is that of the one request made, for one page of
    at most 1000 entries: no further page is asked for, so nothing is
    said of what the folder holds beyond it. *)
Theorem list_wav_files_keeps_audio (w : world) (folder_id : string)
    (raw : option (list resource)) :
  service_ready w = true →
  fresh_value 60 (now w) (wav_files_cache w !! folder_id) = None →
  files_list_execute (drive w) (drive_log w) (wav_files_request folder_id) = inr raw →
  (∃ files, (list_wav_files folder_id w).1 = Ok files
     ∧ sublist files (default [] raw)
     ∧ ∀ f n, In f (default [] raw) → f !! "name" = Some n →
         has_audio_suffix n → In f files)
  ∧ drive_log (list_wav_files folder_id w).2
    = drive_log w ++ [FilesList (wav_files_request folder_id)]
  ∧ pageSize (wav_files_request folder_id) = 1000.
Proof.
  intros Hs Hc Hd.
  rewrite (list_wav_files_miss _ _ raw) by done. split_and!; [|done..].
  exists (wavs_of (default [] raw)). split_and!.
  - done.
  - apply filter_sublist.
  - intros f n Hin Hn Hsuf. apply in_wavs_of. split; [done|].
    apply is_wav_spec. exists n. split_and!; [done| |].
    + by apply has_audio_suffix_nonempty.
    + by apply has_audio_suffix_search.
Qed.

Lemma list_wav_files_keeps_audio_witness :
  service_ready demo_world = true
  ∧ fresh_value 60 (now demo_world) (wav_files_cache demo_world !! "folder") = None
  ∧ files_list_execute (drive demo_world) (drive_log demo_world)
      (wav_files_request "folder") = inr (Some demo_listing)
  ∧ (∃ files, (list_wav_files "folder" demo_world).1 = Ok files
       ∧ sublist files demo_listing
       ∧ ∀ f n, In f demo_listing → f !! "name" = Some n →
           has_audio_suffix n → In f files)
  ∧ drive_log (list_wav_files "folder" demo_world).2
    = drive_log demo_world ++ [FilesList (wav_files_request "folder")]
  ∧ pageSize (wav_files_request "folder") = 1000.
Proof.
  do 3 (split; [reflexivity|]).
  apply (list_wav_files_keeps_audio demo_world "folder" (Some demo_listing));
    reflexivity.
Defined.

(** X2: when Drive fails on the request of [list_subfolders], the
    exception comes out as it is and nothing is stored: the table is as
    before, and the same call made again asks Drive again. *)
Theorem list_subfolders_failure_not_cached (w : world) (root : string) (e : exn) :
  service_ready w = true →
  fresh_value 60 (now w) (subfolders_cache w !! root) = None →
  files_list_execute (drive w) (drive_log w) (subfolders_request root) = inl e →
  let out := list_subfolders root w in
  out.1 = Raise e
  ∧ subfolders_cache out.2 = subfolders_cache w
  ∧ drive_log out.2 = drive_log w ++ [FilesList (subfolders_request root)]
  ∧ drive_log (list_subfolders root out.2).2
    = drive_log out.2 ++ [FilesList (subfolders_request root)].
Proof.
  intros Hs Hc Hd out. subst out.
  rewrite list_subfolders_miss, Hd by done. split_and!; try done.
  rewrite list_subfolders_miss by done. simpl.
  destruct (files_list_execute _ (_ ++ _) _); reflexivity.
Qed.

Lemma list_subfolders_failure_not_cached_witness :
  service_ready failing_world = true
  ∧ fresh_value 60 (now failing_world) (subfolders_cache failing_world !! "root") = None
  ∧ files_list_execute (drive failing_world) (drive_log failing_world)
      (subfolders_request "root") = inl HttpError
  ∧ (list_subfolders "root" failing_world).1 = Raise HttpError
  ∧ subfolders_cache (list_subfolders "root" failing_world).2
    = subfolders_cache failing_world
  ∧ drive_log (list_subfolders "root" failing_world).2
    = drive_log failing_world ++ [FilesList (subfolders_request "root")]
  ∧ drive_log (list_subfolders "root" (list_subfolders "root" failing_world).2).2
    = drive_log (list_subfolders "root" failing_world).2
      ++ [FilesList (subfolders_request "root")].
Proof.
  do 3 (split; [reflexivity|]).
  apply (list_subfolders_failure_not_cached failing_world "root" HttpError);
    reflexivity.
Defined.

(** X3: an entry of [list_wav_files] that is 60 seconds old or older is
    not served: the call asks Drive again, returns the audio files of
    the new answer and stores them with the new time. *)
Theorem list_wav_files_expires (w w' : world) (folder_id : string)
    (raw raw' : option (list resource)) :
  service_ready w = true →
  fresh_value 60 (now w) (wav_files_cache w !! folder_id) = None →
  files_list_execute (drive w) (drive_log w) (wav_files_request folder_id) = inr raw →
  let first := list_wav_files folder_id w in
  service_ready w' = true →
  wav_files_cache w' !! folder_id = wav_files_cache first.2 !! folder_id →
  now first.2 + 60 ≤ now w' →
  files_list_execute (drive w') (drive_log w') (wav_files_request folder_id) = inr raw' →
  let second := list_wav_files folder_id w' in
  second.1 = Ok (wavs_of (default [] raw'))
  ∧ drive_log second.2 = drive_log w' ++ [FilesList (wav_files_request folder_id)]
  ∧ wav_files_cache second.2 !! folder_id
    = Some (CacheEntry (wavs_of (default [] raw')) (now w')).
Proof.
  intros Hs Hc Hd first. subst first.
  rewrite (list_wav_files_miss _ _ raw) by done. simpl.
  intros Hs' Hkept Hnow Hd'. rewrite lookup_insert_eq in Hkept.
  rewrite (list_wav_files_miss _ _ raw'); [|done| |done].
  - simpl. by rewrite lookup_insert_eq.
  - rewrite Hkept. simpl. by rewrite (proj2 (Z.ltb_ge _ _)) by lia.
Qed.

Lemma list_wav_files_expires_witness :
  service_ready demo_world = true
  ∧ fresh_value 60 (now demo_world) (wav_files_cache demo_world !! "folder") = None
  ∧ files_list_execute (drive demo_world) (drive_log demo_world)
      (wav_files_request "folder") = inr (Some demo_listing)
  ∧ service_ready (elapse 60 warm_world) = true
  ∧ wav_files_cache (elapse 60 warm_world) !! "folder"
    = wav_files_cache warm_world !! "folder"
  ∧ now warm_world + 60 ≤ now (elapse 60 warm_world)
  ∧ files_list_execute (drive (elapse 60 warm_world)) (drive_log (elapse 60 warm_world))
      (wav_files_request "folder") = inr (Some demo_listing)
  ∧ (list_wav_files "folder" (elapse 60 warm_world)).1 = Ok (wavs_of demo_listing)
  ∧ drive_log (list_wav_files "folder" (elapse 60 warm_world)).2
    = drive_log (elapse 60 warm_world) ++ [FilesList (wav_files_request "folder")]
  ∧ wav_files_cache (list_wav_files "folder" (elapse 60 warm_world)).2 !! "folder"
    = Some (CacheEntry (wavs_of demo_listing) (now (elapse 60 warm_world))).
Proof.
  assert (service_ready (elapse 60 warm_world) = true) as H4 by (by vm_compute).
  assert (wav_files_cache (elapse 60 warm_world) !! "folder"
          = wav_files_cache warm_world !! "folder") as H5 by reflexivity.
  assert (now warm_world + 60 ≤ now (elapse 60 warm_world)) as H6 by (by vm_compute).
  assert (files_list_execute (drive (elapse 60 warm_world))
            (drive_log (elapse 60 warm_world)) (wav_files_request "folder")
          = inr (Some demo_listing)) as H7 by reflexivity.
  do 3 (split; [reflexivity|]).
  split; [exact H4|]. split; [exact H5|]. split; [exact H6|]. split; [exact H7|].
  exact (list_wav_files_expires demo_world (elapse 60 warm_world) "folder"
           (Some demo_listing) (Some demo_listing)
           eq_refl eq_refl eq_refl H4 H5 H6 H7).
Defined.

(** X4: a [download_file_bytes] call that returned is answered from
    the table when it is made again in the state it left, as the loop
    of the page does for every file: same bytes, no request, no
    change of state. *)
Theorem download_file_bytes_repeat (fuel fuel' : nat) (file_id : string)
    (w w1 : world) (audio_bytes : list byte) :
  download_file_bytes fuel file_id w = (Ok audio_bytes, w1) →
  download_file_bytes fuel' file_id w1 = (Ok audio_bytes, w1).
Proof.
  unfold download_file_bytes. apply cache_data_repeat; [apply table_ok_bytes | lia].
Qed.

Lemma download_file_bytes_repeat_witness :
  download_file_bytes 5 "f1" chunked_world
  = (Ok [x41; x42; x43; x44; x45; x46]%byte,
     (download_file_bytes 5 "f1" chunked_world).2)
  ∧ download_file_bytes 0 "f1" (download_file_bytes 5 "f1" chunked_world).2
    = (Ok [x41; x42; x43; x44; x45; x46]%byte,
       (download_file_bytes 5 "f1" chunked_world).2).
Proof.
  split; [by vm_compute|].
  apply (download_file_bytes_repeat 5 0 "f1" chunked_world). by vm_compute.
Defined.

(** ** The download loop: failures and readers that never finish *)

Section download_more.
Implicit Types (w : world) (fh : list byte).

Lemma reader_fails_tail w file_id c chunks e :
  reader_fails w file_id (c :: chunks) e →
  reader_fails (log_call (NextChunk file_id) w) file_id chunks e.
Proof.
  intros [H He]. split.
  - intros i Hi. specialize (H (S i)). simpl in *.
    rewrite <- app_assoc. simpl. apply H. lia.
  - simpl in *. by rewrite <- app_assoc.
Qed.

Lemma download_loop_fails file_id chunks : ∀ w fh fuel e,
  reader_fails w file_id chunks e →
  (length chunks < fuel)%nat →
  ∃ w', download_loop fuel file_id fh w = (Raise e, w')
    ∧ drive_log w' = drive_log w ++ replicate (S (length chunks)) (NextChunk file_id)
    ∧ bytes_cache w' = bytes_cache w.
Proof.
  induction chunks as [|c chunks IH]; intros w fh fuel e Hr Hf;
    (destruct fuel as [|fuel]; [simpl in Hf; lia|]);
    simpl download_loop; rewrite bind_eq; unfold downloader_next_chunk.
  - destruct Hr as [_ He]. simpl in He. rewrite app_nil_r in He. rewrite He.
    by eexists.
  - pose proof (proj1 Hr 0%nat) as H0. simpl in H0. rewrite app_nil_r in H0.
    rewrite H0 by lia. simpl.
    destruct (IH (log_call (NextChunk file_id) w) (fh ++ c) fuel e)
      as (w' & -> & Hlog & Hcache).
    { by apply (reader_fails_tail _ _ c). }
    { simpl in Hf. lia. }
    exists w'. split_and!; [done| |done].
    rewrite Hlog. simpl. by rewrite <- app_assoc.
Qed.

Lemma reader_never_done_tail w file_id :
  reader_never_done w file_id →
  reader_never_done (log_call (NextChunk file_id) w) file_id.
Proof.
  intros H i. destruct (H (S i)) as [c Hc]. exists c.
  simpl in *. by rewrite <- app_assoc.
Qed.

Lemma download_loop_never_done file_id fuel : ∀ w fh,
  reader_never_done w file_id →
  ∃ w', download_loop fuel file_id fh w = (OutOfFuel, w')
    ∧ drive_log w' = drive_log w ++ replicate fuel (NextChunk file_id)
    ∧ bytes_cache w' = bytes_cache w.
Proof.
  induction fuel as [|fuel IH]; intros w fh Hr; simpl download_loop.
  - exists w. by rewrite app_nil_r.
  - rewrite bind_eq. unfold downloader_next_chunk.
    destruct (Hr 0%nat) as [c Hc]. simpl in Hc. rewrite app_nil_r in Hc.
    rewrite Hc. simpl.
    destruct (IH (log_call (NextChunk file_id) w) (fh ++ c)) as (w' & -> & Hlog & Hcache).
    { by apply reader_never_done_tail. }
    exists w'. split_and!; [done| |done].
    rewrite Hlog. simpl. by rewrite <- app_assoc.
Qed.

End download_more.

(** X5: when a chunk request fails after some chunks have arrived,
    [download_file_bytes] raises that exception after exactly that many
    requests plus one, and stores nothing: the chunks received so far
    are dropped. *)
Theorem download_file_bytes_chunk_failure (w : world) (file_id : string)
    (chunks : list (list byte)) (e : exn) (fuel : nat) :
  service_ready w = true →
  fresh_value 3600 (now w) (bytes_cache w !! file_id) = None →
  reader_fails w file_id chunks e →
  (length chunks < fuel)%nat →
  let out := download_file_bytes fuel file_id w in
  out.1 = Raise e
  ∧ drive_log out.2
    = drive_log w ++ replicate (S (length chunks)) (NextChunk file_id)
  ∧ bytes_cache out.2 = bytes_cache w.
Proof.
  intros Hs Hc Hr Hf out. subst out. unfold download_file_bytes.
  rewrite cache_data_miss by done.
  unfold download_file_bytes_body. rewrite bind_eq, get_drive_service_ready by done.
  destruct (download_loop_fails file_id chunks w [] fuel e Hr Hf)
    as (w' & -> & Hlog & Hcache).
  done.
Qed.

Lemma download_file_bytes_chunk_failure_witness :
  service_ready broken_reader_world = true
  ∧ fresh_value 3600 (now broken_reader_world)
      (bytes_cache broken_reader_world !! "f1") = None
  ∧ reader_fails broken_reader_world "f1" [AB; CD] HttpError
  ∧ (length [AB; CD] < 5)%nat
  ∧ (download_file_bytes 5 "f1" broken_reader_world).1 = Raise HttpError
  ∧ drive_log (download_file_bytes 5 "f1" broken_reader_world).2
    = [NextChunk "f1"; NextChunk "f1"; NextChunk "f1"]
  ∧ bytes_cache (download_file_bytes 5 "f1" broken_reader_world).2
    = bytes_cache broken_reader_world.
Proof.
  assert (reader_fails broken_reader_world "f1" [AB; CD] HttpError) as Hr.
  { split; [|reflexivity].
    intros i Hi. destruct i as [|[|i]]; [reflexivity..|simpl in Hi; lia]. }
  do 2 (split; [reflexivity|]). split; [exact Hr|]. split; [simpl; lia|].
  apply (download_file_bytes_chunk_failure broken_reader_world "f1" [AB; CD] HttpError 5);
    first [reflexivity | exact Hr | simpl; lia].
Defined.

(** X6: the loop of [download_file_bytes] has no bound of its own.
    Against a reader that never flags a chunk done it does not return:
    whatever the fuel, all of it is spent on requests, and nothing is
    stored. *)
Theorem download_file_bytes_never_done (w : world) (file_id : string) (fuel : nat) :
  service_ready w = true →
  fresh_value 3600 (now w) (bytes_cache w !! file_id) = None →
  reader_never_done w file_id →
  let out := download_file_bytes fuel file_id w in
  out.1 = OutOfFuel
  ∧ drive_log out.2 = drive_log w ++ replicate fuel (NextChunk file_id)
  ∧ bytes_cache out.2 = bytes_cache w.
Proof.
  intros Hs Hc Hr out. subst out. unfold download_file_bytes.
  rewrite cache_data_miss by done.
  unfold download_file_bytes_body. rewrite bind_eq, get_drive_service_ready by done.
  destruct (download_loop_never_done file_id fuel w [] Hr) as (w' & -> & Hlog & Hcache).
  done.
Qed.

Lemma download_file_bytes_never_done_witness :
  service_ready endless_reader_world = true
  ∧ fresh_value 3600 (now endless_reader_world)
      (bytes_cache endless_reader_world !! "f1") = None
  ∧ reader_never_done endless_reader_world "f1"
  ∧ (download_file_bytes 4 "f1" endless_reader_world).1 = OutOfFuel
  ∧ drive_log (download_file_bytes 4 "f1" endless_reader_world).2
    = replicate 4 (NextChunk "f1")
  ∧ bytes_cache (download_file_bytes 4 "f1" endless_reader_world).2
    = bytes_cache endless_reader_world.
Proof.
  assert (reader_never_done endless_reader_world "f1") as Hr.
  { intros i. exists AB. reflexivity. }
  do 2 (split; [reflexivity|]). split; [exact Hr|].
  apply (download_file_bytes_never_done endless_reader_world "f1" 4);
    first [reflexivity | exact Hr].
Defined.

(** ** Picking a folder *)

Section selection.
Implicit Types (w : world) (f : resource) (folders : list resource).

Lemma names_of_named folders w :
  Forall (fun f => is_Some (f !! "name")) folders →
  ∃ names, names_of folders w = (Ok names, w)
    ∧ Forall2 (fun f n => f !! "name" = Some n) folders names.
Proof.
  induction 1 as [|f folders [n Hn] _ (names & IH & HF)]; simpl.
  - by exists [].
  - exists (n :: names). rewrite bind_eq. unfold getitem. rewrite Hn. simpl.
    rewrite bind_eq, IH. split; [done | by constructor].
Qed.

Lemma st_selectbox_picks options choice w :
  options ≠ [] →
  ∃ sel, st_selectbox options choice w
         = (Ok (Some sel), show (Selectbox options) w)
    ∧ In sel options.
Proof.
  intros Hne. unfold st_selectbox. rewrite bind_eq. simpl.
  destruct (options !! choice) as [o|] eqn:E.
  - exists o. split; [done|]. apply list_elem_of_In. by eapply list_elem_of_lookup_2.
  - destruct options as [|o options]; [done|]. exists o. split; [done | by left].
Qed.

(** The generator of [next] stops at the first folder with the name. *)
Lemma next_named_first folders sel w :
  Forall (fun f => is_Some (f !! "name")) folders →
  (∃ f, In f folders ∧ f !! "name" = Some sel) →
  ∃ i f, folders !! i = Some f
    ∧ f !! "name" = Some sel
    ∧ (∀ j g, (j < i)%nat → folders !! j = Some g → g !! "name" ≠ Some sel)
    ∧ next_named folders (Some sel) w = (Ok f, w).
Proof.
  induction 1 as [|f folders [n Hn] HF IH]; intros (g & Hin & Hg); [done|].
  simpl next_named. rewrite bind_eq. unfold getitem. rewrite Hn. simpl.
  case_bool_decide as Hsel.
  - exists 0%nat, f. split_and!; [done | congruence | intros; lia | done].
  - assert (∃ f0, In f0 folders ∧ f0 !! "name" = Some sel) as Hex.
    { destruct Hin as [<- | Hin]; [congruence | by exists g]. }
    destruct (IH Hex) as (i & f0 & Hi & Hf0 & Hfirst & Hnext).
    exists (S i), f0. split_and!; [done | done | | done].
    intros [|j] g0 Hj Hg0; simpl in Hg0.
    + injection Hg0 as <-. congruence.
    + apply (Hfirst j); [lia | done].
Qed.

End selection.

(** X7: when there are folders and each has a name, the name the select
    box returns is the name of one of them, and [next] finds a folder
    for it without running out: the first folder of the listing with
    that name. *)
Theorem selected_folder_resolved (folders : list resource) (choice : nat) (w : world) :
  folders ≠ [] →
  Forall (fun f => is_Some (f !! "name")) folders →
  ∃ names sel i f,
    names_of folders w = (Ok names, w)
    ∧ (st_selectbox names choice w).1 = Ok (Some sel)
    ∧ folders !! i = Some f
    ∧ f !! "name" = Some sel
    ∧ (∀ j g, (j < i)%nat → folders !! j = Some g → g !! "name" ≠ Some sel)
    ∧ next_named folders (Some sel) (st_selectbox names choice w).2
      = (Ok f, (st_selectbox names choice w).2).
Proof.
  intros Hne HF.
  destruct (names_of_named folders w HF) as (names & Hnames & H2).
  assert (names ≠ []) as Hne'.
  { intros ->. apply Forall2_nil_inv_r in H2. done. }
  destruct (st_selectbox_picks names choice w Hne') as (sel & Hsel & Hin).
  assert (∃ f, In f folders ∧ f !! "name" = Some sel) as Hex.
  { apply list_elem_of_In, list_elem_of_lookup in Hin as [k Hk].
    destruct (Forall2_lookup_r _ _ _ _ _ H2 Hk) as (f & Hf & Hn).
    exists f. split; [|done]. apply list_elem_of_In. by eapply list_elem_of_lookup_2. }
  destruct (next_named_first folders sel (show (Selectbox names) w) HF Hex)
    as (i & f & Hi & Hf & Hfirst & Hnext).
  exists names, sel, i, f. rewrite Hsel. by split_and!.
Qed.

Lemma selected_folder_resolved_witness :
  twin_folders ≠ []
  ∧ Forall (fun f => is_Some (f !! "name")) twin_folders
  ∧ ∃ names sel i f,
      names_of twin_folders demo_world = (Ok names, demo_world)
      ∧ (st_selectbox names 2 demo_world).1 = Ok (Some sel)
      ∧ twin_folders !! i = Some f
      ∧ f !! "name" = Some sel
      ∧ (∀ j g, (j < i)%nat → twin_folders !! j = Some g → g !! "name" ≠ Some sel)
      ∧ next_named twin_folders (Some sel) (st_selectbox names 2 demo_world).2
        = (Ok f, (st_selectbox names 2 demo_world).2).
Proof.
  assert (Forall (fun f : resource => is_Some (f !! "name")) twin_folders) as HF.
  { repeat constructor; by eexists. }
  split; [done|]. split; [exact HF|].
  apply (selected_folder_resolved twin_folders 2 demo_world); [done | exact HF].
Defined.

(** ** Pages *)

Section pages_more.
Implicit Types (files : list resource).

(** From page 1 on, a page is [page_size] entries from its start, or
    what is left of the list. *)
Lemma files_page_take_drop files (page page_size : Z) :
  0 < page_size → 1 ≤ page →
  files_page files page page_size
  = take (Z.to_nat page_size) (drop (Z.to_nat ((page - 1) * page_size)) files).
Proof.
  intros Hps Hp. apply list_eq. intros i.
  unfold files_page, page_end, page_start.
  rewrite py_slice_lookup by nia.
  set (lo := (page - 1) * page_size). assert (0 ≤ lo) by (subst lo; nia).
  destruct (decide (i < Z.to_nat page_size)%nat) as [Hi|Hi].
  - rewrite lookup_take_lt, lookup_drop by done.
    case_bool_decide as Hb.
    + f_equal. lia.
    + symmetry. apply lookup_ge_None_2. lia.
  - rewrite lookup_take_ge by lia. case_bool_decide; [lia | done].
Qed.

Lemma concat_pages {A} (l : list A) (size n : nat) :
  concat (List.map (fun p : nat => take size (drop ((p - 1) * size) l)) (seq 1 n))
  = take (n * size) l.
Proof.
  induction n as [|n IH]; [done|].
  rewrite seq_S, map_app, concat_app, IH. simpl.
  rewrite app_nil_r, Nat.sub_0_r.
  by rewrite take_take_drop, Nat.add_comm.
Qed.

Lemma page_count_covers (total page_size : Z) :
  0 < page_size → total ≤ page_count total page_size * page_size.
Proof.
  intros Hps. unfold page_count.
  pose proof (Z.div_mod (total + page_size - 1) page_size).
  pose proof (Z.mod_pos_bound (total + page_size - 1) page_size Hps). nia.
Qed.


End pages_more.

(** X8: the pages 1 to [page_count], one after the other, are the
    filtered list: every file is on exactly one page, in order. *)
Theorem pages_partition (files : list resource) (page_size : Z) :
  0 < page_size →
  let total := Z.of_nat (length files) in
  concat (List.map (fun p : nat => files_page files (Z.of_nat p) page_size)
            (seq 1 (Z.to_nat (page_count total page_size))))
  = files.
Proof.
  intros Hps total.
  rewrite (map_ext_in _
     (fun p : nat => take (Z.to_nat page_size)
                          (drop ((p - 1) * Z.to_nat page_size) files))).
  - rewrite concat_pages. apply take_ge.
    pose proof (page_count_covers total page_size Hps). subst total. nia.
  - intros p Hp%in_seq. rewrite files_page_take_drop by lia.
    do 2 f_equal. nia.
Qed.

Lemma pages_partition_witness :
  0 < 50
  ∧ concat (List.map (fun p : nat => files_page (numbered_files 125) (Z.of_nat p) 50)
              (seq 1 (Z.to_nat (page_count (Z.of_nat (length (numbered_files 125))) 50))))
    = numbered_files 125.
Proof. split; [lia | apply (pages_partition (numbered_files 125) 50); lia]. Defined.



(** ** What every run of the script keeps *)

Section invariant.
Implicit Types (w : world) (f : resource).

(** [D] is what is known of Drive, [X] the exceptions a run may end in:
    those of the script itself, and those Drive raises. *)
Context (D : backend → Prop) (X : exn → Prop).
Hypothesis X_key : ∀ key, X (KeyError key).
Hypothesis X_value : X ValueError.
Hypothesis X_secret : X SecretNotFoundError.
Hypothesis X_stop : X StopException.
Hypothesis X_rerun : X RerunException.
Hypothesis X_list : ∀ d log req e, D d → files_list_execute d log req = inl e → X e.
Hypothesis X_chunk : ∀ d log file_id e, D d → next_chunk d log file_id = inl e → X e.

Lemma holds_ret {A} I (a : A) (Q : A → Prop) : Q a → holds I X (mret a) Q.
Proof. by intros Ha w Hw. Qed.

Lemma holds_raise {A} I e (Q : A → Prop) :
  X e → holds I X (raise e) Q.
Proof. by intros He w Hw. Qed.

Lemma holds_bind {A B} I (m : M A) (k : A → M B) (Q : A → Prop) (R : B → Prop) :
  holds I X m Q → (∀ a, Q a → holds I X (k a) R) → holds I X (m ≫= k) R.
Proof.
  intros Hm Hk w Hw. rewrite bind_eq. destruct (Hm w Hw) as [H1 H2].
  destruct (m w) as [[a | e |] w1]; simpl in *; [|done..].
  by apply Hk.
Qed.

Lemma holds_weaken {A} I (m : M A) (Q R : A → Prop) :
  holds I X m Q → (∀ a, Q a → R a) → holds I X m R.
Proof.
  intros Hm HQ w Hw. destruct (Hm w Hw) as [H1 H2]. split; [done|].
  destruct (m w).1; auto.
Qed.

Lemma holds_show e :
  expander_ok e → holds (page_inv D) X (modify (show e)) (fun _ => True).
Proof.
  intros He w (H1 & H2 & H3). simpl. split; [|done]. split_and!; [done | | done].
  simpl. apply Forall_app. split; [done | by constructor].
Qed.

Lemma holds_get_world I : holds I X get_world (fun _ => True).
Proof. by intros w Hw. Qed.

Lemma holds_st_secrets_get I key :
  holds I X (st_secrets_get key) (fun _ => True).
Proof.
  intros w Hw. unfold st_secrets_get. rewrite bind_eq. simpl.
  destruct (secrets w); simpl; auto.
Qed.

Lemma holds_getitem I d key :
  holds I X (getitem d key) (fun v => d !! key = Some v).
Proof. intros w Hw. unfold getitem. destruct (d !! key); simpl; auto. Qed.

Lemma holds_get_drive_service I :
  holds I X get_drive_service (fun _ => True).
Proof.
  intros w Hw. unfold get_drive_service, secrets_dict. rewrite !bind_eq. simpl.
  destruct (secret_tables w !! _); simpl.
  { rewrite bind_eq. simpl. destruct (credentials_ok _ _); simpl; auto. }
  destruct (secrets w); simpl; [|by auto].
  destruct (secret_strings w !! _) as [v|]; simpl; [|by auto].
  destruct (PyStr.truthy v); simpl; [by auto|].
  rewrite bind_eq. simpl. destruct (credentials_ok _ _); simpl; auto.
Qed.

Lemma page_inv_log c w : (page_inv D) w → (page_inv D) (log_call c w).
Proof. by intros (H1 & H2 & H3). Qed.

Lemma holds_files_list req :
  holds (page_inv D) X (files_list req) (fun _ => True).
Proof.
  intros w Hw. unfold files_list.
  destruct (files_list_execute _ _ _) as [e|res] eqn:E; simpl.
  - split; [by apply page_inv_log|].
    eapply X_list; [apply Hw | done].
  - split; [by apply page_inv_log | done].
Qed.

Lemma holds_downloader_next_chunk file_id :
  holds (page_inv D) X (downloader_next_chunk file_id) (fun _ => True).
Proof.
  intros w Hw. unfold downloader_next_chunk.
  destruct (next_chunk _ _ _) as [e|res] eqn:E; simpl.
  - split; [by apply page_inv_log|].
    eapply X_chunk; [apply Hw | done].
  - split; [by apply page_inv_log | done].
Qed.

Lemma holds_download_loop file_id fuel : ∀ fh,
  holds (page_inv D) X (download_loop fuel file_id fh) (fun _ => True).
Proof.
  induction fuel as [|fuel IH]; intros fh; simpl.
  - by intros w Hw.
  - eapply holds_bind; [apply holds_downloader_next_chunk|].
    intros [chunk [|]] _; [by apply holds_ret | apply IH].
Qed.

(** The decorator keeps the invariant when the function behind it does
    and storing a value it returned does. *)
Lemma holds_cache_data {T} ttl (tbl : table T) func arg (Q : T → Prop) :
  (∀ w v, (page_inv D) w → fresh_value ttl (now w) (tbl_get tbl w !! arg) = Some v → Q v) →
  holds (page_inv D) X (func arg) Q →
  (∀ w v, (page_inv D) w → Q v →
     (page_inv D) (tbl_set tbl (<[arg := CacheEntry v (now w)]> (tbl_get tbl w)) w)) →
  holds (page_inv D) X (cache_data ttl tbl func arg) Q.
Proof.
  intros Hhit Hf Hset w Hw. unfold cache_data.
  destruct (fresh_value _ _ _) as [v|] eqn:E.
  - simpl. split; [done | by eapply Hhit].
  - destruct (Hf w Hw) as [H1 H2].
    destruct (func arg w) as [[v | e |] w1]; simpl in *; auto.
Qed.

Lemma holds_list_subfolders root :
  holds (page_inv D) X (list_subfolders root) (fun _ => True).
Proof.
  apply holds_cache_data; [done | | by intros w v (H1 & H2 & H3)].
  unfold list_subfolders_body.
  eapply holds_bind; [apply holds_get_drive_service|]. intros _ _.
  eapply holds_bind; [apply holds_files_list|]. intros res _.
  by apply holds_ret.
Qed.

Lemma wavs_of_is_wav raw : Forall (fun f => is_wav f = true) (wavs_of raw).
Proof. apply List.Forall_forall. by intros f [_ H]%in_wavs_of. Qed.

Lemma holds_list_wav_files folder_id :
  holds (page_inv D) X (list_wav_files folder_id)
        (Forall (fun f => is_wav f = true)).
Proof.
  apply holds_cache_data.
  - intros w v (H1 & _) Hv. simpl in Hv.
    destruct (wav_files_cache w !! folder_id) as [e|] eqn:E; [|done].
    simpl in Hv. destruct (_ <? _); [|done]. injection Hv as <-. by eapply H1.
  - unfold list_wav_files_body.
    eapply holds_bind; [apply holds_get_drive_service|]. intros _ _.
    eapply holds_bind; [apply holds_files_list|]. intros res _.
    apply holds_ret, wavs_of_is_wav.
  - intros w v (H1 & H2 & H3) Hv. split_and!; [|done..].
    intros k e. simpl. rewrite lookup_insert.
    case_decide; [intros [= <-]; done | apply H1].
Qed.

Lemma holds_download_file_bytes fuel file_id :
  holds (page_inv D) X (download_file_bytes fuel file_id) (fun _ => True).
Proof.
  apply holds_cache_data; [done | | by intros w v (H1 & H2 & H3)].
  unfold download_file_bytes_body.
  eapply holds_bind; [apply holds_get_drive_service|]. intros _ _.
  apply holds_download_loop.
Qed.

Lemma holds_names_of I folders :
  holds I X (names_of folders)
        (Forall2 (fun f n => f !! "name" = Some n) folders).
Proof.
  induction folders as [|f folders IH]; simpl; [by apply holds_ret|].
  eapply holds_bind; [apply holds_getitem|]. intros n Hn.
  eapply holds_bind; [apply IH|]. intros ns Hns.
  apply holds_ret. by constructor.
Qed.

Lemma holds_st_selectbox options choice :
  options ≠ [] →
  holds (page_inv D) X (st_selectbox options choice)
        (fun sel => ∃ s, sel = Some s ∧ In s options).
Proof.
  intros Hne w Hw.
  destruct (st_selectbox_picks options choice w Hne) as (s & -> & Hin).
  split; [|by exists s]. by apply (holds_show (Selectbox options)).
Qed.

Lemma holds_next_named I folders s :
  (∃ f, In f folders ∧ f !! "name" = Some s) →
  holds I X (next_named folders (Some s)) (fun f => In f folders).
Proof.
  induction folders as [|f folders IH]; intros (g & Hin & Hg); [done|]. simpl.
  eapply holds_bind; [apply holds_getitem|]. intros n Hn.
  case_bool_decide as Hsel.
  - apply holds_ret. by left.
  - eapply holds_weaken; [apply IH | by right].
    destruct Hin as [<- | Hin]; [congruence | by exists g].
Qed.

Lemma apply_query_cases query files :
  Forall (fun f => is_wav f = true) files →
  match apply_query query files with
  | Ok kept => Forall (fun f => is_wav f = true) kept
  | Raise e => X e
  | OutOfFuel => True
  end.
Proof.
  intros HF. unfold apply_query. destruct (PyStr.truthy _); [|done].
  induction HF as [|f files Hf HF IH]; simpl; [done|].
  destruct (f !! "name"); [|done].
  destruct (filter_by_query query files); [|done..].
  destruct (PyStr.contains _ _); [by constructor | done].
Qed.

Lemma holds_st_number_input lo hi value typed :
  holds (page_inv D) X (st_number_input lo hi value typed) (fun _ => True).
Proof.
  unfold st_number_input. eapply holds_bind; [by apply holds_show|].
  intros _ _. by apply holds_ret.
Qed.

Lemma holds_render_files fuel files : ∀ idx,
  Forall (fun f => is_wav f = true) files →
  holds (page_inv D) X (render_files fuel idx files) (fun _ => True).
Proof.
  induction files as [|f files IH]; intros idx HF; simpl; [by apply holds_ret|].
  apply Forall_cons in HF as [Hf HF].
  eapply holds_bind; [apply holds_getitem|]. intros name Hname.
  eapply holds_bind.
  { apply holds_show. simpl. apply is_wav_spec in Hf as (n & Hn & _ & Hs). congruence. }
  intros _ _.
  eapply holds_bind; [apply holds_getitem|]. intros id _.
  eapply holds_bind; [apply holds_download_file_bytes|]. intros b _.
  eapply holds_bind; [by apply holds_show|]. intros _ _.
  eapply holds_bind; [apply holds_getitem|]. intros id' _.
  eapply holds_bind; [apply holds_download_file_bytes|]. intros b' _.
  eapply holds_bind; [by apply holds_show|]. intros _ _.
  by apply IH.
Qed.

Lemma page_inv_clear {T} (tbl : table T) :
  (∀ w, (page_inv D) w → (page_inv D) (tbl_set tbl ∅ w)) →
  holds (page_inv D) X (clear_table tbl) (fun _ => True).
Proof. intros H w Hw. split; [by apply H | done]. Qed.

Lemma holds_refresh_handler :
  holds (page_inv D) X refresh_handler (fun _ => False).
Proof.
  assert (∀ w, (page_inv D) w → (page_inv D) (set_subfolders_cache ∅ w)) as Hs
    by (by intros w (H1 & H2 & H3)).
  assert (∀ w, (page_inv D) w → (page_inv D) (set_bytes_cache ∅ w)) as Hb
    by (by intros w (H1 & H2 & H3)).
  assert (∀ w, (page_inv D) w → (page_inv D) (set_wav_files_cache ∅ w)) as Hw.
  { intros w (H1 & H2 & H3). split_and!; [|done..]. intros k e. simpl.
    by rewrite lookup_empty. }
  unfold refresh_handler, cache_data_clear.
  eapply holds_bind; [by apply (page_inv_clear subfolders_table)|]. intros _ _.
  eapply holds_bind; [by apply (page_inv_clear wav_files_table)|]. intros _ _.
  eapply holds_bind.
  { eapply holds_bind; [by apply (page_inv_clear subfolders_table)|]. intros _ _.
    eapply holds_bind; [by apply (page_inv_clear wav_files_table)|]. intros _ _.
    by apply (page_inv_clear bytes_table). }
  intros _ _. by apply holds_raise.
Qed.

(** Every run keeps [page_inv] and ends in nothing but [X]. *)
Lemma holds_script fuel ui :
  holds (page_inv D) X (script fuel ui) (fun _ => True).
Proof.
  unfold script.
  eapply holds_bind; [by apply holds_show|]. intros _ _.
  eapply holds_bind; [by apply holds_show|]. intros _ _.
  eapply holds_bind; [apply holds_st_secrets_get|]. intros root _. cbv zeta.
  eapply holds_bind.
  { instantiate (1 := fun _ => True). destruct (PyStr.truthy _); [by apply holds_ret|].
    eapply holds_bind; [by apply holds_show|]. intros _ _. by apply holds_raise. }
  intros _ _.
  eapply holds_bind; [by apply holds_show|]. intros _ _.
  eapply holds_bind.
  { instantiate (1 := fun _ => True). unfold st_button.
    eapply holds_bind; [by apply holds_show|]. intros _ _. by apply holds_ret. }
  intros refresh _.
  eapply holds_bind.
  { instantiate (1 := fun _ => True). destruct refresh; [|by apply holds_ret].
    eapply holds_weaken; [apply holds_refresh_handler | done]. }
  intros _ _.
  eapply holds_bind; [apply holds_list_subfolders|]. intros folders _.
  destruct folders as [|f0 folders].
  { eapply holds_bind.
    - instantiate (1 := fun _ => False).
      eapply holds_bind; [by apply holds_show|]. intros _ _. by apply holds_raise.
    - by intros _ []. }
  eapply holds_bind; [by apply (holds_ret _ _ (fun _ => True))|]. intros _ _.
  eapply holds_bind; [apply holds_names_of|]. intros names Hnames.
  assert (names ≠ []) as Hne.
  { intros ->. by apply Forall2_nil_inv_r in Hnames. }
  eapply holds_bind; [by apply holds_st_selectbox|]. intros sel (s & -> & Hin).
  eapply holds_bind.
  { apply holds_next_named.
    apply list_elem_of_In, list_elem_of_lookup in Hin as [k Hk].
    destruct (Forall2_lookup_r _ _ _ _ _ Hnames Hk) as (f & Hf & Hn).
    exists f. split; [|done]. apply list_elem_of_In. by eapply list_elem_of_lookup_2. }
  intros selected_folder _.
  eapply holds_bind; [apply holds_getitem|]. intros shown_name _.
  eapply holds_bind; [by apply holds_show|]. intros _ _.
  eapply holds_bind.
  { instantiate (1 := fun _ => True). unfold st_text_input.
    eapply holds_bind; [by apply holds_show|]. intros _ _. by apply holds_ret. }
  intros query _.
  eapply holds_bind; [apply holds_st_number_input|]. intros page_size _.
  eapply holds_bind; [apply holds_getitem|]. intros folder_id _.
  eapply holds_bind; [apply holds_list_wav_files|]. intros files Hfiles.
  eapply holds_bind.
  { instantiate (1 := Forall (fun f => is_wav f = true)).
    intros w Hw. split; [done|]. by apply apply_query_cases. }
  intros kept Hkept.
  eapply holds_bind; [by apply holds_show|]. intros _ _.
  eapply holds_bind; [apply holds_st_number_input|]. intros page _.
  eapply holds_bind; [by apply holds_show|]. intros _ _.
  apply holds_render_files.
  unfold files_page, py_slice.
  apply Forall_take, Forall_drop. done.
Qed.

End invariant.

(** X10: [list_wav_files] keeps its table sound, and from a sound table
    every list it returns, fetched or served from the table, is made of
    entries with a non-empty name that the pattern matches. *)
Theorem list_wav_files_sound (w : world) (folder_id : string) :
  wav_cache_sound w →
  let out := list_wav_files folder_id w in
  wav_cache_sound out.2
  ∧ ∀ files, out.1 = Ok files →
      Forall (fun f => ∃ n, f !! "name" = Some n ∧ n ≠ ""
                            ∧ AUDIO_EXT_RE_search n = true) files.
Proof.
  intros Hw out.
  assert (∀ files, Forall (fun f => is_wav f = true) files →
            Forall (fun f => ∃ n, f !! "name" = Some n ∧ n ≠ ""
                                  ∧ AUDIO_EXT_RE_search n = true) files) as Hspec.
  { intros files HF. eapply Forall_impl; [exact HF|]. intros f. apply is_wav_spec. }
  subst out. unfold list_wav_files, cache_data. simpl.
  destruct (wav_files_cache w !! folder_id) as [c|] eqn:E; simpl.
  - destruct (now w - fetched_at c <? 60) eqn:Et; simpl.
    { split; [done|]. intros files [= <-]. by eapply Hspec, Hw. }
    unfold list_wav_files_body. rewrite bind_eq.
    destruct (get_drive_service_state w) as [-> _].
    destruct (get_drive_service w).1 as [[]|e|]; [|done..]. rewrite bind_eq. unfold files_list.
    destruct (files_list_execute _ _ _); simpl; [done|]. split.
    + intros k e. simpl. rewrite lookup_insert. case_decide; [|apply Hw].
      intros [= <-]. apply wavs_of_is_wav.
    + intros files [= <-]. apply Hspec, wavs_of_is_wav.
  - unfold list_wav_files_body. rewrite bind_eq.
    destruct (get_drive_service_state w) as [-> _].
    destruct (get_drive_service w).1 as [[]|e|]; [|done..]. rewrite bind_eq. unfold files_list.
    destruct (files_list_execute _ _ _); simpl; [done|]. split.
    + intros k e. simpl. rewrite lookup_insert. case_decide; [|apply Hw].
      intros [= <-]. apply wavs_of_is_wav.
    + intros files [= <-]. apply Hspec, wavs_of_is_wav.
Qed.

Lemma wav_cache_sound_fresh strings tables d :
  wav_cache_sound (fresh_world strings tables d).
Proof. intros k e H. simpl in H. by rewrite lookup_empty in H. Qed.

Lemma list_wav_files_sound_witness :
  wav_cache_sound demo_world
  ∧ wav_cache_sound (list_wav_files "folder" demo_world).2
  ∧ ∀ files, (list_wav_files "folder" demo_world).1 = Ok files →
      Forall (fun f => ∃ n, f !! "name" = Some n ∧ n ≠ ""
                            ∧ AUDIO_EXT_RE_search n = true) files.
Proof.
  split; [apply wav_cache_sound_fresh|].
  apply (list_wav_files_sound demo_world "folder"), wav_cache_sound_fresh.
Defined.



(** X12: no run of the script ends in [StopIteration]: the [next] that
    resolves the selected folder always finds one. (Drive is taken not
    to raise [StopIteration] itself; the state is one that runs of the
    script keep.) *)
Theorem script_never_stop_iteration (fuel : nat) (ui : interaction) (w : world) :
  drive_exn_ok (drive w) →
  wav_cache_sound w →
  Forall expander_ok (shown w) →
  (script fuel ui w).1 ≠ Raise StopIteration.
Proof.
  intros HD H1 H2.
  assert (holds (page_inv drive_exn_ok) not_stop_iteration
            (script fuel ui) (fun _ => True)) as Hrun.
  { apply holds_script; try done.
    - intros d log req e [Hd _] He ->. by eapply Hd.
    - intros d log file_id e [_ Hd] He ->. by eapply Hd. }
  destruct (Hrun w) as [_ H]; [done|].
  intros Heq. rewrite Heq in H. by apply H.
Qed.

Lemma script_never_stop_iteration_witness :
  drive_exn_ok (drive folders_world)
  ∧ wav_cache_sound folders_world
  ∧ Forall expander_ok (shown folders_world)
  ∧ (script 5 untouched folders_world).1 ≠ Raise StopIteration.
Proof.
  assert (drive_exn_ok (drive folders_world)) as HD by (by split).
  split; [exact HD|]. split; [apply wav_cache_sound_fresh|]. split; [constructor|].
  apply (script_never_stop_iteration 5 untouched folders_world);
    [exact HD | apply wav_cache_sound_fresh | constructor].
Defined.

(** ** Runs that end before the file list *)

(** Runs the script up to the next call that is not plain sequencing. *)
Ltac run_page Hroot Hclick :=
  repeat first
    [ rewrite bind_eq | rewrite Hroot | rewrite Hclick
    | rewrite st_secrets_get_file by done
    | progress cbn [modify get_world raise mret M_ret show] ].

(** X13: with the root id set, a run in which the refresh button was
    clicked ends in a rerun request before any listing: nothing is asked
    of Drive, the three tables are empty, and the page has the title,
    the sidebar header and the button, nothing else. *)
Theorem script_refresh_run (fuel : nat) (ui : interaction) (w : world) :
  PyStr.truthy (default "" (secret_strings w !! "GDRIVE_ROOT_FOLDER_ID")) = true →
  refresh_clicked ui = true →
  let out := script fuel ui w in
  out.1 = Raise RerunException
  ∧ drive_log out.2 = drive_log w
  ∧ (subfolders_cache out.2 = ∅ ∧ wav_files_cache out.2 = ∅ ∧ bytes_cache out.2 = ∅)
  ∧ shown out.2 = shown w ++ [SetPageConfig; Title; SidebarHeader; Button].
Proof.
  intros Hroot Hclick out. subst out.
  rewrite script_refresh by done. rewrite refresh_handler_eq. simpl.
  split_and!; try done. by rewrite <- !app_assoc.
Qed.

Lemma script_refresh_run_witness :
  PyStr.truthy (default "" (secret_strings warm_world !! "GDRIVE_ROOT_FOLDER_ID")) = true
  ∧ refresh_clicked refresh_click = true
  ∧ (script 5 refresh_click warm_world).1 = Raise RerunException
  ∧ drive_log (script 5 refresh_click warm_world).2 = drive_log warm_world
  ∧ (subfolders_cache (script 5 refresh_click warm_world).2 = ∅
     ∧ wav_files_cache (script 5 refresh_click warm_world).2 = ∅
     ∧ bytes_cache (script 5 refresh_click warm_world).2 = ∅)
  ∧ shown (script 5 refresh_click warm_world).2
    = shown warm_world ++ [SetPageConfig; Title; SidebarHeader; Button].
Proof.
  do 2 (split; [by vm_compute|]).
  apply (script_refresh_run 5 refresh_click warm_world); by vm_compute.
Defined.

Lemma script_to_list_subfolders fuel ui w :
  PyStr.truthy (default "" (secret_strings w !! "GDRIVE_ROOT_FOLDER_ID")) = true →
  refresh_clicked ui = false →
  ∀ r w1,
    list_subfolders (default "" (secret_strings w !! "GDRIVE_ROOT_FOLDER_ID"))
      (show Button (show SidebarHeader (show Title (show SetPageConfig w))))
    = (r, w1) →
    match r with
    | Ok [] => script fuel ui w = (Raise StopException, show (Warning no_subfolders_msg) w1)
    | Ok (_ :: _) => True
    | Raise e => script fuel ui w = (Raise e, w1)
    | OutOfFuel => script fuel ui w = (OutOfFuel, w1)
    end.
Proof.
  intros Hroot Hclick r w1 Hl. unfold script, st_button.
  pose proof (root_set_file w Hroot) as Hf.
  change (secret_strings w) with
    (secret_strings (show Title (show SetPageConfig w))) in Hroot, Hl.
  run_page Hroot Hclick. rewrite Hl.
  by destruct r as [[|f folders]| |].
Qed.

(** X14: when Drive reports no subfolder of the root, the run shows the
    warning and stops: one list request was made, and no select box or
    anything after it is put on the page. *)
Theorem script_no_subfolders (fuel : nat) (ui : interaction) (w : world)
    (res : option (list resource)) :
  let root_id := default "" (secret_strings w !! "GDRIVE_ROOT_FOLDER_ID") in
  PyStr.truthy root_id = true →
  refresh_clicked ui = false →
  service_ready w = true →
  fresh_value 60 (now w) (subfolders_cache w !! root_id) = None →
  files_list_execute (drive w) (drive_log w) (subfolders_request root_id) = inr res →
  default [] res = [] →
  let out := script fuel ui w in
  out.1 = Raise StopException
  ∧ drive_log out.2 = drive_log w ++ [FilesList (subfolders_request root_id)]
  ∧ shown out.2
    = shown w ++ [SetPageConfig; Title; SidebarHeader; Button; Warning no_subfolders_msg].
Proof.
  intros root_id Hroot Hclick Hs Hc Hd Hnil out. subst out.
  pose proof (script_to_list_subfolders fuel ui w Hroot Hclick) as H.
  fold root_id in H.
  rewrite list_subfolders_miss in H by done. simpl in H. rewrite Hd, Hnil in H.
  rewrite (H _ _ eq_refl). simpl. split_and!; try done.
  by rewrite <- !app_assoc.
Qed.

Lemma script_no_subfolders_witness :
  PyStr.truthy (default "" (secret_strings empty_world !! "GDRIVE_ROOT_FOLDER_ID")) = true
  ∧ refresh_clicked untouched = false
  ∧ service_ready empty_world = true
  ∧ fresh_value 60 (now empty_world) (subfolders_cache empty_world !! "root") = None
  ∧ files_list_execute (drive empty_world) (drive_log empty_world)
      (subfolders_request "root") = inr (Some [])
  ∧ default [] (Some (@nil resource)) = []
  ∧ (script 5 untouched empty_world).1 = Raise StopException
  ∧ drive_log (script 5 untouched empty_world).2
    = drive_log empty_world ++ [FilesList (subfolders_request "root")]
  ∧ shown (script 5 untouched empty_world).2
    = shown empty_world
      ++ [SetPageConfig; Title; SidebarHeader; Button; Warning no_subfolders_msg].
Proof.
  do 6 (split; [reflexivity|]).
  apply (script_no_subfolders 5 untouched empty_world (Some [])); reflexivity.
Defined.

(** X15: when Drive fails on the listing of the subfolders, the run
    ends in that exception as it is: the script catches nothing, the
    page stays at the refresh button, and no listing is stored. *)
Theorem script_drive_failure (fuel : nat) (ui : interaction) (w : world) (e : exn) :
  let root_id := default "" (secret_strings w !! "GDRIVE_ROOT_FOLDER_ID") in
  PyStr.truthy root_id = true →
  refresh_clicked ui = false →
  service_ready w = true →
  fresh_value 60 (now w) (subfolders_cache w !! root_id) = None →
  files_list_execute (drive w) (drive_log w) (subfolders_request root_id) = inl e →
  let out := script fuel ui w in
  out.1 = Raise e
  ∧ subfolders_cache out.2 = subfolders_cache w
  ∧ shown out.2 = shown w ++ [SetPageConfig; Title; SidebarHeader; Button].
Proof.
  intros root_id Hroot Hclick Hs Hc Hd out. subst out.
  pose proof (script_to_list_subfolders fuel ui w Hroot Hclick) as H.
  fold root_id in H.
  rewrite list_subfolders_miss in H by done. simpl in H. rewrite Hd in H.
  rewrite (H _ _ eq_refl). simpl. split_and!; try done.
  by rewrite <- !app_assoc.
Qed.

Lemma script_drive_failure_witness :
  PyStr.truthy (default "" (secret_strings failing_world !! "GDRIVE_ROOT_FOLDER_ID")) = true
  ∧ refresh_clicked untouched = false
  ∧ service_ready failing_world = true
  ∧ fresh_value 60 (now failing_world) (subfolders_cache failing_world !! "root") = None
  ∧ files_list_execute (drive failing_world) (drive_log failing_world)
      (subfolders_request "root") = inl HttpError
  ∧ (script 5 untouched failing_world).1 = Raise HttpError
  ∧ subfolders_cache (script 5 untouched failing_world).2
    = subfolders_cache failing_world
  ∧ shown (script 5 untouched failing_world).2
    = shown failing_world ++ [SetPageConfig; Title; SidebarHeader; Button].
Proof.
  do 5 (split; [reflexivity|]).
  apply (script_drive_failure 5 untouched failing_world HttpError); reflexivity.
Defined.

(** ** What the loop puts on the page *)

Section rendering.
Implicit Types (w : world) (f : resource).

Lemma shown_download_loop file_id fuel : ∀ w fh,
  shown (download_loop fuel file_id fh w).2 = shown w.
Proof.
  induction fuel as [|fuel IH]; intros w fh; simpl; [done|].
  rewrite bind_eq. unfold downloader_next_chunk.
  destruct (next_chunk _ _ _) as [e | [chunk [|]]]; simpl; [done..|].
  by rewrite IH.
Qed.

(** Downloading shows nothing. *)
Lemma shown_download_file_bytes fuel file_id w :
  shown (download_file_bytes fuel file_id w).2 = shown w.
Proof.
  unfold download_file_bytes, cache_data.
  destruct (fresh_value _ _ _); [done|].
  pose proof (shown_download_loop file_id fuel w []) as Hl.
  unfold download_file_bytes_body. rewrite bind_eq.
  destruct (get_drive_service_state w) as [-> _].
  destruct (get_drive_service w).1 as [[]|e|]; [|done..]. simpl.
  by destruct (download_loop _ _ _ _) as [[| |] ?].
Qed.

(** A call that returned leaves a fresh entry for its argument. *)
Lemma cache_data_leaves_fresh {T} ttl (tbl : table T) func arg w v w1 :
  table_ok tbl → 0 < ttl →
  cache_data ttl tbl func arg w = (Ok v, w1) →
  fresh_value ttl (now w1) (tbl_get tbl w1 !! arg) = Some v.
Proof.
  intros [Hget Hnow] Httl H. unfold cache_data in H.
  destruct (fresh_value ttl (now w) (tbl_get tbl w !! arg)) as [v0|] eqn:E.
  - by injection H as <- <-.
  - destruct (func arg w) as [[v0| |] w0]; try done.
    injection H as <- <-.
    rewrite Hget, Hnow, lookup_insert_eq. apply fresh_value_stored. lia.
Qed.

Lemma download_file_bytes_after_show fuel file_id w w1 b e :
  download_file_bytes fuel file_id w = (Ok b, w1) →
  download_file_bytes fuel file_id (show e w1) = (Ok b, show e w1).
Proof.
  intros H. apply cache_data_hit.
  assert (0 < 3600) as Httl by lia.
  by apply (cache_data_leaves_fresh 3600 bytes_table _ _ _ _ _ table_ok_bytes Httl) in H.
Qed.

(** One pass of the loop body that returns: the name is there, both
    downloads return the same bytes, and the second one changes
    nothing. *)
Lemma render_file_step fuel idx f files w w' :
  render_files fuel idx (f :: files) w = (Ok tt, w') →
  ∃ name audio_bytes w1,
    f !! "name" = Some name
    ∧ shown w1 = shown w ++ file_events idx name audio_bytes
    ∧ render_files fuel (idx + 1) files w1 = (Ok tt, w').
Proof.
  simpl render_files. rewrite bind_eq. unfold getitem at 1.
  destruct (f !! "name") as [name|]; [|done]. simpl.
  rewrite bind_eq. simpl. rewrite bind_eq.
  destruct (f !! "id") as [id|] eqn:Eid; [|by unfold getitem; rewrite Eid].
  unfold getitem. rewrite Eid. simpl. rewrite bind_eq.
  destruct (download_file_bytes fuel id (show (Expander idx name) w))
    as [[b| |] w1] eqn:Ed; [|done..].
  pose proof (shown_download_file_bytes fuel id (show (Expander idx name) w)) as Hs.
  rewrite Ed in Hs. simpl in Hs.
  unfold audio_player_nodownload. rewrite bind_eq. simpl. rewrite bind_eq. simpl.
  rewrite bind_eq.
  assert (download_file_bytes fuel id (show (Audio b "audio/wav") w1)
          = (Ok b, show (Audio b "audio/wav") w1)) as ->.
  { by apply (download_file_bytes_after_show _ _ _ _ _ _ Ed). }
  rewrite bind_eq. simpl. intros Hrest.
  exists name, b, (show (Audio b "audio/wav") (show (Audio b "audio/wav") w1)).
  split_and!; [done | | done].
  simpl. rewrite Hs. simpl. by rewrite <- !app_assoc.
Qed.

End rendering.

(** X16: when the loop over the page returns, it has put on the page,
    for each file in order, an expander titled with the file's position
    (counted from the first number, one by one) and name, followed by
    the player twice with the same bytes; nothing else is shown. *)
Theorem render_files_page (fuel : nat) (files : list resource) :
  ∀ (idx : Z) (w w' : world),
  render_files fuel idx files w = (Ok tt, w') →
  ∃ entries,
    Forall2 (fun f entry => f !! "name" = Some entry.1) files entries
    ∧ shown w' = shown w ++ page_events idx entries.
Proof.
  induction files as [|f files IH]; intros idx w w' H.
  - injection H as <-. exists []. split; [constructor | by rewrite app_nil_r].
  - apply render_file_step in H as (name & b & w1 & Hn & Hs & Hrest).
    apply IH in Hrest as (entries & HF & Hs').
    exists ((name, b) :: entries). split; [by constructor|].
    rewrite Hs', Hs. simpl. by rewrite <- !app_assoc.
Qed.

Lemma render_files_page_witness :
  render_files 5 1 (wavs_of demo_listing) folders_world
  = (Ok tt, (render_files 5 1 (wavs_of demo_listing) folders_world).2)
  ∧ ∃ entries,
      Forall2 (fun f entry => f !! "name" = Some entry.1) (wavs_of demo_listing) entries
      ∧ shown (render_files 5 1 (wavs_of demo_listing) folders_world).2
        = shown folders_world ++ page_events 1 entries.
Proof.
  assert (render_files 5 1 (wavs_of demo_listing) folders_world
          = (Ok tt, (render_files 5 1 (wavs_of demo_listing) folders_world).2)) as H
    by (by vm_compute).
  split; [exact H|].
  exact (render_files_page 5 (wavs_of demo_listing) 1 folders_world _ H).
Defined.


(** ** The audio component: base64 text and the HTML around it *)

Section base64.
Implicit Types (bs : list byte) (s t : string).

Ltac div_lia := zify; Z.to_euclidean_division_equations; lia.

Lemma sextets : ∀ i, (i < 64)%N → In i (List.map N.of_nat (seq 0 64)).
Proof.
  intros i Hi. apply in_map_iff. exists (N.to_nat i). split; [lia|].
  apply in_seq. lia.
Qed.

Lemma b64_char_ok i : (i < 64)%N → is_b64_char (b64_char i) = true.
Proof.
  intros Hi.
  assert (forallb (fun i => is_b64_char (b64_char i))
            (List.map N.of_nat (seq 0 64)) = true) as H by (by vm_compute).
  by apply (proj1 (forallb_forall _ _) H), sextets.
Qed.

Lemma b64_index_char i : (i < 64)%N → b64_index (b64_char i) = i.
Proof.
  intros Hi.
  assert (forallb (fun i => N.eqb (b64_index (b64_char i)) i)
            (List.map N.of_nat (seq 0 64)) = true) as H by (by vm_compute).
  by apply N.eqb_eq, (proj1 (forallb_forall _ _) H), sextets.
Qed.

Lemma b64_char_not_pad i : (i < 64)%N → b64_char i ≠ "="%char.
Proof.
  intros Hi.
  assert (forallb (fun i => negb (Ascii.eqb (b64_char i) "="))
            (List.map N.of_nat (seq 0 64)) = true) as H by (by vm_compute).
  pose proof (proj1 (forallb_forall _ _) H i (sextets i Hi)) as Hne.
  cbv beta in Hne. intros Heq. rewrite Heq in Hne. done.
Qed.

Lemma b64_char_inj i j : (i < 64)%N → (j < 64)%N → b64_char i = b64_char j → i = j.
Proof.
  intros Hi Hj H. by rewrite <- (b64_index_char i), <- (b64_index_char j), H.
Qed.

Lemma to_N_lt (b : byte) : (Byte.to_N b < 256)%N.
Proof. pose proof (Byte.to_N_bounded b). lia. Qed.

Lemma to_N_inj (a b : byte) : Byte.to_N a = Byte.to_N b → a = b.
Proof.
  intros H. pose proof (Byte.of_to_N a) as Ha. rewrite H, Byte.of_to_N in Ha.
  by injection Ha.
Qed.

(** Lists three elements at a time. *)
Lemma list_ind3 {A} (P : list A → Prop) :
  P [] → (∀ a, P [a]) → (∀ a b, P [a; b]) →
  (∀ a b c l, P l → P (a :: b :: c :: l)) →
  ∀ l, P l.
Proof.
  intros H0 H1 H2 H3.
  assert (∀ n l, (length l < n)%nat → P l) as H.
  { induction n as [|n IH]; intros l Hl; [lia|].
    destruct l as [|a [|b [|c l]]]; auto.
    apply H3, IH. simpl in Hl. lia. }
  intros l. apply (H (S (length l))). lia.
Qed.

Lemma b64encode_alphabet bs : all_chars is_b64_char (b64encode bs) = true.
Proof.
  induction bs as [|a|a b|a b c bs IH] using list_ind3; [done|..];
    pose proof (to_N_lt a); try pose proof (to_N_lt b); try pose proof (to_N_lt c);
    cbn [b64encode all_chars]; rewrite ?IH, ?b64_char_ok; try done; div_lia.
Qed.

Lemma b64encode_length bs :
  String.length (b64encode bs) = (4 * ((length bs + 2) / 3))%nat.
Proof.
  induction bs as [|a|a b|a b c bs IH] using list_ind3; [done..|].
  cbn [b64encode String.length length]. rewrite IH.
  replace (S (S (S (length bs))) + 2)%nat with (length bs + 2 + 1 * 3)%nat by lia.
  rewrite Nat.div_add by lia. lia.
Qed.

(** A number below 2^24 is determined by its four groups of six bits,
    one below 2^16 by the three groups base64 makes of it. *)
Lemma join_sextets3 (n m : N) :
  (n < 16777216)%N → (m < 16777216)%N →
  (n / 262144 = m / 262144)%N → (n / 4096 mod 64 = m / 4096 mod 64)%N →
  (n / 64 mod 64 = m / 64 mod 64)%N → (n mod 64 = m mod 64)%N →
  n = m.
Proof. intros. div_lia. Qed.

Lemma join_sextets2 (n m : N) :
  (n < 65536)%N → (m < 65536)%N →
  (n / 1024 = m / 1024)%N → (n / 16 mod 64 = m / 16 mod 64)%N →
  (n mod 16 * 4 = m mod 16 * 4)%N →
  n = m.
Proof. intros. div_lia. Qed.

Lemma b64encode_inj : ∀ bs bs', b64encode bs = b64encode bs' → bs = bs'.
Proof.
  induction bs as [|a|a b|a b c bs IH] using list_ind3;
    intros [|a' [|b' [|c' bs']]] H; try done;
    pose proof (to_N_lt a) as Ba; try pose proof (to_N_lt b) as Bb;
    try pose proof (to_N_lt c) as Bc;
    try pose proof (to_N_lt a') as Ba'; try pose proof (to_N_lt b') as Bb';
    try pose proof (to_N_lt c') as Bc';
    cbn [b64encode] in H; simplify_eq;
    try (exfalso;
         match goal with
         | E : b64_char _ = "="%char |- _ => by apply b64_char_not_pad in E; [|div_lia]
         | E : "="%char = b64_char _ |- _ =>
             symmetry in E; by apply b64_char_not_pad in E; [|div_lia]
         end);
    repeat match goal with
           | E : b64_char _ = b64_char _ |- _ => apply b64_char_inj in E; [|div_lia..]
           end.
  - f_equal. apply to_N_inj. div_lia.
  - assert (Byte.to_N a * 256 + Byte.to_N b = Byte.to_N a' * 256 + Byte.to_N b')%N as Hn.
    { apply (join_sextets2 _ _); [lia | lia | done..]. }
    assert (Byte.to_N a = Byte.to_N a' ∧ Byte.to_N b = Byte.to_N b') as [Ha Hb] by lia.
    apply to_N_inj in Ha, Hb. by subst.
  - assert (Byte.to_N a * 65536 + Byte.to_N b * 256 + Byte.to_N c
            = Byte.to_N a' * 65536 + Byte.to_N b' * 256 + Byte.to_N c')%N as Hn.
    { apply (join_sextets3 _ _); [lia | lia | done..]. }
    assert (Byte.to_N a = Byte.to_N a' ∧ Byte.to_N b = Byte.to_N b'
            ∧ Byte.to_N c = Byte.to_N c') as (Ha & Hb & Hc) by lia.
    apply to_N_inj in Ha, Hb, Hc. subst. do 3 f_equal.
    apply IH. by match goal with E : b64encode _ = b64encode _ |- _ => exact E end.
Qed.

End base64.

Section html.
Implicit Types (s t p : string).

Lemma append_inj_l p s t : p +:+ s = p +:+ t → s = t.
Proof.
  induction p as [|c p IH]; [done|]. rewrite !append_cons. intros [= H]. by apply IH.
Qed.

Lemma append_length s t :
  String.length (s +:+ t) = (String.length s + String.length t)%nat.
Proof. induction s as [|c s IH]; [done|]. rewrite append_cons. simpl. by rewrite IH. Qed.

Lemma append_inj_prefix s s' t t' :
  String.length s = String.length s' → s +:+ t = s' +:+ t' → s = s'.
Proof.
  revert s'. induction s as [|c s IH]; intros [|c' s'] Hl H; try done.
  rewrite !append_cons in H. injection H as -> H. f_equal.
  apply IH; [by injection Hl | done].
Qed.

End html.

(** X17: the base64 text of any bytes is made of letters, digits, [+],
    [/] and [=] only, and has four characters for every three bytes,
    rounded up: whatever the audio bytes are, they put no quote, angle
    bracket or space into the [src] attribute of the component. *)
Theorem b64encode_text (audio_bytes : list byte) :
  all_chars is_b64_char (b64encode audio_bytes) = true
  ∧ String.length (b64encode audio_bytes)
    = (4 * ((length audio_bytes + 2) / 3))%nat.
Proof. split; [apply b64encode_alphabet | apply b64encode_length]. Qed.

(** X18: the HTML of the audio component determines the audio: two
    byte sequences that give the same HTML for a given mime type are
    the same sequence. *)
Theorem audio_html_inj (audio_bytes audio_bytes' : list byte) (mime : string) :
  audio_html audio_bytes mime = audio_html audio_bytes' mime →
  audio_bytes = audio_bytes'.
Proof.
  unfold audio_html. cbv zeta. rewrite ?append_assoc. intros H.
  repeat (apply append_inj_l in H).
  apply b64encode_inj.
  assert (String.length (b64encode audio_bytes)
          = String.length (b64encode audio_bytes')) as Hl.
  { apply (f_equal String.length) in H. rewrite !append_length in H. lia. }
  by apply (append_inj_prefix _ _ _ _ Hl H).
Qed.

Lemma audio_html_inj_witness :
  audio_html AB "audio/wav" = audio_html [x41; x42]%byte "audio/wav"
  ∧ AB = [x41; x42]%byte.
Proof.
  split; [reflexivity|].
  apply (audio_html_inj AB [x41; x42]%byte "audio/wav"). reflexivity.
Defined.
